(** * pysqlsync: the structural mutation (diff) engine and the PostgreSQL
      string-literal renderer, as a shallow embedding.

    Sources embedded here:
    - [pysqlsync/formation/mutation.py]   (class [Mutator] and the three
      module-level helpers [_create_diff], [_drop_diff], [_mutate_diff]);
    - [pysqlsync/dialect/oracle/mutation.py]   ([OracleMutator]);
    - [pysqlsync/dialect/postgresql/object_types.py]   ([sql_quoted_string]).

    Python raises exceptions; here every fallible function returns a
    [result].  A Python [dict] is an association list in insertion order. *)

From Stdlib Require Import String Ascii List Bool Lia DecimalString.
From stdpp Require Import base decidable option list strings.
Import ListNotations.

(** ** Characters and string helpers *)

Definition chr (n : nat) : ascii := ascii_of_nat n.

Definition BACKSPACE : ascii := chr 8.
Definition TAB : ascii := chr 9.
Definition NEWLINE : ascii := chr 10.
Definition FORMFEED : ascii := chr 12.
Definition CR : ascii := chr 13.
Definition APOSTROPHE : ascii := chr 39.
Definition BACKSLASH : ascii := chr 92.

Definition str1 (c : ascii) : string := String c EmptyString.

(** The one-character string written ["\n"] in Python. *)
Definition NL : string := str1 NEWLINE.

(** [sep.join(items)] *)
Definition join (sep : string) (items : list string) : string :=
  String.concat sep items.

(** Python truthiness of a list: [if statements:] *)
Definition truthy_list {A} (l : list A) : bool :=
  match l with [] => false | _ :: _ => true end.

(** Python truthiness of an [Optional[str]]: [if statement:] is false for
    both [None] and the empty string. *)
Definition truthy_stmt (o : option string) : bool :=
  match o with
  | Some EmptyString => false
  | Some _ => true
  | None => false
  end.

(** [if statement: statements.append(statement)] *)
Definition append_stmt (statements : list string) (statement : option string)
  : list string :=
  match statement with
  | Some s => if truthy_stmt statement then statements ++ [s] else statements
  | None => statements
  end.

(** [str(x)] of an [Optional[str]] inside an f-string. *)
Definition str_optional (o : option string) : string :=
  match o with Some s => s | None => "None" end.

(** ** Identifiers *)

(** Modelled from the spec: [pysqlsync/model/id_types.py] is absent.  An
    identifier is "a name plus an optional local/qualified scope"; the code
    reads the unqualified part as [name.id], and compares two names with
    [!=], which is equality of the logical name. *)
Record Identifier := mkId {
  scope : option string;
  id : string;
}.

#[global] Instance Identifier_eq_dec : EqDecision Identifier.
Proof. solve_decision. Defined.

Definition LocalId (s : string) : Identifier := mkId None s.
Definition QualifiedId (ns s : string) : Identifier := mkId (Some ns) s.

(** [SupportsName]: the protocol of objects that have a [name]. *)
Class SupportsName (T : Type) := name : T → Identifier.

(** ** Exceptions *)

(** Modelled from the spec: the exception classes are declared in the absent
    [pysqlsync/formation/object_types.py].  [raise X(...) from e] stores [e]
    as the cause of the new exception.  [KeyError] is Python's own, raised
    by [m[k]] for a missing key. *)
Inductive Exn : Type :=
| FormationError (msg : string)
| ColumnFormationError (msg : string) (column : Identifier)
| TableFormationError (msg : string) (table : Identifier) (cause : Exn)
| KeyError (key : string).

Definition is_ColumnFormationError (e : Exn) : bool :=
  match e with ColumnFormationError _ _ => true | _ => false end.

Inductive result (A : Type) : Type :=
| Ok (a : A)
| Raise (e : Exn).
Arguments Ok {A} a.
Arguments Raise {A} e.

Definition rbind {A B} (m : result A) (k : A → result B) : result B :=
  match m with
  | Ok a => k a
  | Raise e => Raise e
  end.

Notation "'let*' x ':=' m 'in' k" := (rbind m (fun x => k))
  (at level 10, x pattern, m at level 100, k at level 200).

(** [try: body except ColumnFormationError as e: raise handler(e) from e] *)
Definition try_except_column {A} (body : result A) (handler : Exn → Exn)
  : result A :=
  match body with
  | Ok a => Ok a
  | Raise e => if is_ColumnFormationError e then Raise (handler e) else Raise e
  end.

(** A [for] loop that updates an accumulator and whose body may raise. *)
Fixpoint foldM {A B} (f : A → B → result A) (acc : A) (l : list B)
  : result A :=
  match l with
  | [] => Ok acc
  | x :: l' => let* acc' := f acc x in foldM f acc' l'
  end.

(** A comprehension or loop whose body may raise: left to right, the first
    exception escapes. *)
Fixpoint mapM {A B} (f : A → result B) (l : list A) : result (list B) :=
  match l with
  | [] => Ok []
  | x :: l' => let* y := f x in let* ys := mapM f l' in Ok (y :: ys)
  end.

(** ** Mappings (Python [dict], insertion ordered) *)

Abbreviation Mapping T := (list (string * T)).

Definition keys {T} (m : Mapping T) : list string := m.*1.
Definition values {T} (m : Mapping T) : list T := m.*2.

(** [m.get(k)] *)
Fixpoint get {T} (m : Mapping T) (k : string) : option T :=
  match m with
  | [] => None
  | (k', v) :: m' => if decide (k' = k) then Some v else get m' k
  end.

(** [m[k]] *)
Definition getitem {T} (m : Mapping T) (k : string) : result T :=
  match get m k with
  | Some v => Ok v
  | None => Raise (KeyError k)
  end.

(** [k in m] and [k in m.keys()] *)
Definition contains {T} (m : Mapping T) (k : string) : bool :=
  bool_decide (k ∈ keys m).

(** What a Python dict guarantees: no key occurs twice. *)
Definition dict_ok {T} (m : Mapping T) : Prop := NoDup (keys m).

(** The object model stores every named child under its own [name.id]. *)
Definition keyed_by_id {T} `{SupportsName T} (m : Mapping T) : Prop :=
  Forall (λ kv, kv.1 = id (name kv.2)) m.

(** ** Schema object model *)

(** Modelled from the spec: the data classes live in the absent
    [pysqlsync/formation/object_types.py] and [data_types.py].  The fields
    are those the spec lists and the code under [src/] reads. *)
Inductive SqlDataType : Type :=
| SqlBooleanType
| SqlIntegerType (width : nat)
| SqlDecimalType (precision scale : nat)
| SqlCharacterType (limit : option nat)
| SqlTimestampType
| SqlEnumType (ref : Identifier)
| SqlStructType (ref : Identifier).

#[global] Instance SqlDataType_eq_dec : EqDecision SqlDataType.
Proof. solve_decision. Defined.

Record EnumType := mkEnum {
  enum_name : Identifier;
  enum_values : list string;
}.

Record StructMember := mkMember {
  member_name : Identifier;
  member_data_type : SqlDataType;
  member_description : option string;
}.

#[global] Instance StructMember_eq_dec : EqDecision StructMember.
Proof. solve_decision. Defined.

Record StructType := mkStruct {
  struct_name : Identifier;
  struct_members : Mapping StructMember;
  struct_description : option string;
}.

Record Column := mkColumn {
  column_name : Identifier;
  data_type : SqlDataType;
  nullable : bool;
  default : option string;
  identity : bool;
  description : option string;
}.

#[global] Instance Column_eq_dec : EqDecision Column.
Proof. solve_decision. Defined.

Record Constraint := mkConstraint {
  constraint_name : Identifier;
  spec : string;
  is_alter_table : bool;
}.

Record Table := mkTable {
  table_name : Identifier;
  columns : Mapping Column;
  primary_key : list string;
  constraints : list Constraint;
  table_description : option string;
}.

Record Namespace := mkNamespace {
  namespace_name : Identifier;
  enums : Mapping EnumType;
  structs : Mapping StructType;
  tables : Mapping Table;
}.

Record Catalog := mkCatalog {
  namespaces : Mapping Namespace;
}.

#[global] Instance EnumType_name : SupportsName EnumType := enum_name.
#[global] Instance StructMember_name : SupportsName StructMember := member_name.
#[global] Instance StructType_name : SupportsName StructType := struct_name.
#[global] Instance Column_name : SupportsName Column := column_name.
#[global] Instance Table_name : SupportsName Table := table_name.
#[global] Instance Namespace_name : SupportsName Namespace := namespace_name.

(** ** Rendering, per dialect *)

(** The rendering methods of the object model ([__str__], [create_stmt],
    [drop_stmt], [alter_table_stmt], [add_constraints_stmt],
    [drop_constraints_stmt]) and [constant] of [data_types.py] are not under
    [src/]; the mutator only calls them.  They are the fields of a dialect.
    A renderer that may raise returns a [result]. *)
Record Dialect := mkDialect {
  str_id : Identifier → string;
  str_data_type : SqlDataType → string;
  str_member : StructMember → string;
  constant : string → string;
  enum_create_stmt : EnumType → result string;
  enum_drop_stmt : EnumType → result string;
  struct_create_stmt : StructType → result string;
  struct_drop_stmt : StructType → result string;
  column_create_stmt : Column → result string;
  column_drop_stmt : Column → result string;
  table_create_stmt : Table → result string;
  table_drop_stmt : Table → result string;
  alter_table_stmt : Table → list string → string;
  table_add_constraints_stmt : Table → result (option string);
  namespace_create_stmt : Namespace → result string;
  namespace_drop_stmt : Namespace → result string;
  namespace_add_constraints_stmt : Namespace → result (option string);
  namespace_drop_constraints_stmt : Namespace → result (option string);
}.

(** ** The mutator: [pysqlsync/formation/mutation.py] *)

Module Mutator.
Section Mutator.
Variable d : Dialect.

Definition check_identity {S T} `{SupportsName S} `{SupportsName T}
    (source : S) (target : T) : result unit :=
  if decide (name source ≠ name target)
  then Raise (FormationError
                ("object mismatch: " +:+ str_id d (name source)
                 +:+ " != " +:+ str_id d (name target)))
  else Ok tt.

Definition mutate_enum_stmt (source target : EnumType)
  : result (option string) :=
  let* _ := check_identity source target in
  let removed_values :=
    filter (λ value, value ∉ enum_values target) (enum_values source) in
  if truthy_list removed_values then
    Raise (FormationError
             ("operation not permitted; cannot drop values in an enumeration: "
              +:+ join EmptyString removed_values))
  else
    let added_values :=
      filter (λ value, value ∉ enum_values source) (enum_values target) in
    if truthy_list added_values then
      Ok (Some ("ALTER TYPE " +:+ str_id d (name source) +:+ NL
                +:+ join ("," +:+ NL)
                      (map (λ v, "ADD VALUE " +:+ constant d v) added_values)
                +:+ ";"))
    else Ok None.

Definition mutate_struct_stmt (source target : StructType)
  : result (option string) :=
  let* _ := check_identity source target in
  let statements : list string := [] in
  let statements :=
    fold_left
      (λ statements source_member,
         if decide (source_member ∉ values (struct_members target))
         then statements ++ ["DROP ATTRIBUTE " +:+ str_id d (name source_member)]
         else statements)
      (values (struct_members source)) statements in
  (* the second loop tests each target member against the target's own
     members, as the source does *)
  let statements :=
    fold_left
      (λ statements target_member,
         if decide (target_member ∉ values (struct_members target))
         then statements ++ ["ADD ATTRIBUTE " +:+ str_member d target_member]
         else statements)
      (values (struct_members target)) statements in
  if truthy_list statements then
    Ok (Some ("ALTER TYPE " +:+ str_id d (name source) +:+ NL
              +:+ join ("," +:+ NL) statements +:+ ";" +:+ NL))
  else Ok None.

(** The list [statements] of [mutate_column_stmt] when the final [if] is
    reached. *)
Definition mutate_column_fragments (source target : Column) : list string :=
  let statements : list string := [] in
  let statements :=
    if decide (data_type source ≠ data_type target)
    then statements ++ ["SET DATA TYPE " +:+ str_data_type d (data_type target)]
    else statements in
  let statements :=
    if nullable source && negb (nullable target)
    then statements ++ ["SET NOT NULL"]
    else if negb (nullable source) && nullable target
    then statements ++ ["DROP NOT NULL"]
    else statements in
  let statements :=
    if bool_decide (default source ≠ None) && bool_decide (default target = None)
    then statements ++ ["DROP DEFAULT"]
    else if decide (default source ≠ default target)
    then statements ++ ["SET DEFAULT " +:+ str_optional (default target)]
    else statements in
  let statements :=
    if identity source && negb (identity target)
    then statements ++ ["DROP IDENTITY"]
    else if negb (identity source) && identity target
    then statements ++ ["ADD GENERATED BY DEFAULT AS IDENTITY"]
    else statements in
  statements.

Definition mutate_column_stmt (source target : Column)
  : result (option string) :=
  if decide (source = target) then Ok None
  else
    let statements := mutate_column_fragments source target in
    if truthy_list statements then
      Ok (Some (join ("," +:+ NL)
                  (map (λ s, "ALTER COLUMN " +:+ str_id d (name source)
                              +:+ " " +:+ s) statements)))
    else Ok None.

(** [_create_diff], [_drop_diff], [_mutate_diff]: generic in the object
    type; the method looked up on the object is an argument here. *)
Definition _create_diff {T} (create_stmt : T → result string)
    (source target : Mapping T) : result (list string) :=
  mapM (λ id, let* o := getitem target id in create_stmt o)
       (filter (λ id, id ∉ keys source) (keys target)).

Definition _drop_diff {T} (drop_stmt : T → result string)
    (source target : Mapping T) : result (list string) :=
  mapM (λ id, let* o := getitem source id in drop_stmt o)
       (filter (λ id, id ∉ keys target) (keys source)).

Definition _mutate_diff {T} (mutate_fn : T → T → result (option string))
    (source target : Mapping T) : result (list string) :=
  foldM
    (λ statements id,
       if contains target id then
         let* s := getitem source id in
         let* t := getitem target id in
         let* statement := mutate_fn s t in
         Ok (append_stmt statements statement)
       else Ok statements)
    [] (keys source).

(** [for id in these.keys(): if id not in those.keys(): statement =
    these[id].stmt(); if statement: statements.append(statement)] *)
Definition deferred_constraints {T} (stmt : T → result (option string))
    (these those : Mapping T) (statements : list string)
  : result (list string) :=
  foldM
    (λ statements id,
       if negb (contains those id) then
         let* o := getitem these id in
         let* statement := stmt o in
         Ok (append_stmt statements statement)
       else Ok statements)
    statements (keys these).

Section Dispatch.
(** [self.mutate_column_stmt]: a subclass of [Mutator] may override it. *)
Variable self_mutate_column_stmt : Column → Column → result (option string).

(** First [try] block of [mutate_table_stmt]. *)
Definition create_or_update_columns (source target : Table)
    (statements : list string) : result (list string) :=
  foldM
    (λ statements target_column,
       match get (columns source) (id (name target_column)) with
       | None =>
           let* s := column_create_stmt d target_column in
           Ok (statements ++ [s])
       | Some source_column =>
           let* statement :=
             self_mutate_column_stmt source_column target_column in
           Ok (append_stmt statements statement)
       end)
    statements (values (columns target)).

(** Second [try] block of [mutate_table_stmt]. *)
Definition drop_columns (source target : Table) (statements : list string)
  : result (list string) :=
  foldM
    (λ statements source_column,
       if negb (contains (columns target) (id (name source_column))) then
         let* s := column_drop_stmt d source_column in
         Ok (statements ++ [s])
       else Ok statements)
    statements (values (columns source)).

(** The [if]/[elif] chain on the two constraint lists. *)
Definition mutate_constraints (source target : Table)
    (statements : list string) : list string :=
  if truthy_list (constraints source) && negb (truthy_list (constraints target))
  then
    fold_left
      (λ statements constraint,
         if is_alter_table constraint
         then statements ++ ["DROP CONSTRAINT " +:+ str_id d (constraint_name constraint)]
         else statements)
      (constraints source) statements
  else if negb (truthy_list (constraints source)) && truthy_list (constraints target)
  then
    fold_left
      (λ statements constraint,
         if is_alter_table constraint
         then statements ++ ["ADD CONSTRAINT " +:+ spec constraint]
         else statements)
      (constraints target) statements
  else if truthy_list (constraints source) && truthy_list (constraints target)
  then
    (* [for target_constraint in target.constraints: ...] *)
    fold_left (λ statements _, statements) (constraints target) statements
  else statements.

(** The list [statements] of [mutate_table_stmt] when the final [if] is
    reached. *)
Definition mutate_table_fragments (source target : Table)
  : result (list string) :=
  let* _ := check_identity source target in
  let statements : list string := [] in
  let* statements :=
    try_except_column
      (create_or_update_columns source target statements)
      (λ e, TableFormationError
              "failed to create or update columns in table" (name target) e) in
  let* statements :=
    try_except_column
      (drop_columns source target statements)
      (λ e, TableFormationError
              "failed to drop columns in table" (name target) e) in
  Ok (mutate_constraints source target statements).

Definition mutate_table_stmt (source target : Table)
  : result (option string) :=
  let* statements := mutate_table_fragments source target in
  if truthy_list statements
  then Ok (Some (alter_table_stmt d source statements))
  else Ok None.

(** The list [statements] of [mutate_namespace_stmt] before the final
    join. *)
Definition mutate_namespace_statements (source target : Namespace)
  : result (list string) :=
  let* _ := check_identity source target in
  let statements : list string := [] in
  let* c := _create_diff (enum_create_stmt d) (enums source) (enums target) in
  let statements := statements ++ c in
  let* c := _create_diff (struct_create_stmt d) (structs source) (structs target) in
  let statements := statements ++ c in
  let* c := _create_diff (table_create_stmt d) (tables source) (tables target) in
  let statements := statements ++ c in
  let* statements :=
    deferred_constraints (table_add_constraints_stmt d)
      (tables target) (tables source) statements in
  let* m := _mutate_diff mutate_enum_stmt (enums source) (enums target) in
  let statements := statements ++ m in
  let* m := _mutate_diff mutate_struct_stmt (structs source) (structs target) in
  let statements := statements ++ m in
  let* m := _mutate_diff mutate_table_stmt (tables source) (tables target) in
  let statements := statements ++ m in
  let* r := _drop_diff (table_drop_stmt d) (tables source) (tables target) in
  let statements := statements ++ r in
  let* r := _drop_diff (struct_drop_stmt d) (structs source) (structs target) in
  let statements := statements ++ r in
  let* r := _drop_diff (enum_drop_stmt d) (enums source) (enums target) in
  let statements := statements ++ r in
  Ok statements.

Definition mutate_namespace_stmt (source target : Namespace)
  : result (option string) :=
  let* statements := mutate_namespace_statements source target in
  Ok (if truthy_list statements then Some (join NL statements) else None).

(** The list [statements] of [mutate_catalog_stmt] before the final
    join. *)
Definition mutate_catalog_statements (source target : Catalog)
  : result (list string) :=
  let statements : list string := [] in
  let* c := _create_diff (namespace_create_stmt d)
              (namespaces source) (namespaces target) in
  let statements := statements ++ c in
  let* statements :=
    deferred_constraints (namespace_add_constraints_stmt d)
      (namespaces target) (namespaces source) statements in
  let* m := _mutate_diff mutate_namespace_stmt
              (namespaces source) (namespaces target) in
  let statements := statements ++ m in
  let* statements :=
    deferred_constraints (namespace_drop_constraints_stmt d)
      (namespaces source) (namespaces target) statements in
  let* r := _drop_diff (namespace_drop_stmt d)
              (namespaces source) (namespaces target) in
  let statements := statements ++ r in
  Ok statements.

Definition mutate_catalog_stmt (source target : Catalog)
  : result (option string) :=
  let* statements := mutate_catalog_statements source target in
  Ok (if truthy_list statements then Some (join NL statements) else None).
End Dispatch.

End Mutator.
End Mutator.

(** The base class itself: [self.mutate_column_stmt] is its own method. *)
Module BaseMutator.
Definition mutate_table_fragments (d : Dialect) :=
  Mutator.mutate_table_fragments d (Mutator.mutate_column_stmt d).
Definition mutate_table_stmt (d : Dialect) :=
  Mutator.mutate_table_stmt d (Mutator.mutate_column_stmt d).
Definition mutate_namespace_statements (d : Dialect) :=
  Mutator.mutate_namespace_statements d (Mutator.mutate_column_stmt d).
Definition mutate_namespace_stmt (d : Dialect) :=
  Mutator.mutate_namespace_stmt d (Mutator.mutate_column_stmt d).
Definition mutate_catalog_statements (d : Dialect) :=
  Mutator.mutate_catalog_statements d (Mutator.mutate_column_stmt d).
Definition mutate_catalog_stmt (d : Dialect) :=
  Mutator.mutate_catalog_stmt d (Mutator.mutate_column_stmt d).
End BaseMutator.

(** ** [pysqlsync/dialect/oracle/mutation.py] *)

Module OracleMutator.
Section OracleMutator.
Variable d : Dialect.
(** [OracleColumn.default_expr], declared in the absent
    [dialect/oracle/object_types.py]. *)
Variable default_expr : Column → string.

(** The list [changes] when the final [if] is reached. *)
Definition mutate_column_changes (source target : Column) : list string :=
  let changes : list string := [] in
  let changes :=
    if decide (data_type source ≠ data_type target)
    then changes ++ [str_data_type d (data_type target)]
    else changes in
  let changes :=
    if decide (default source ≠ default target) then
      if bool_decide (default target ≠ None)
      then changes ++ ["DEFAULT " +:+ default_expr target]
      else changes ++ ["DEFAULT NULL"]
    else changes in
  let changes :=
    if decide (nullable source ≠ nullable target) then
      if negb (nullable target)
      then changes ++ ["NOT NULL"]
      else changes ++ ["NULL"]
    else changes in
  let changes :=
    if decide (identity source ≠ identity target) then
      if identity target
      then changes ++ ["GENERATED BY DEFAULT AS IDENTITY"]
      else changes ++ ["DROP IDENTITY"]
    else changes in
  changes.

Definition mutate_column_stmt (source target : Column)
  : result (option string) :=
  let changes := mutate_column_changes source target in
  if truthy_list changes then
    Ok (Some ("MODIFY " +:+ str_id d (name source) +:+ " "
              +:+ join " " changes))
  else Ok None.

Definition mutate_table_stmt :=
  Mutator.mutate_table_stmt d mutate_column_stmt.
End OracleMutator.
End OracleMutator.

(** ** [pysqlsync/dialect/postgresql/object_types.py] *)

Module PostgreSQL.

(** [str.maketrans({...})]: a character is mapped to its replacement. *)
Definition _sql_quoted_str_table : list (ascii * string) :=
  [ (BACKSLASH, "\\");
    (APOSTROPHE, "\'");
    (BACKSPACE, "\b");
    (FORMFEED, "\f");
    (NEWLINE, "\n");
    (CR, "\r");
    (TAB, "\t") ].

Fixpoint table_lookup (table : list (ascii * string)) (c : ascii)
  : option string :=
  match table with
  | [] => None
  | (c', r) :: table' => if decide (c' = c) then Some r else table_lookup table' c
  end.

(** [text.translate(table)] *)
Fixpoint translate (table : list (ascii * string)) (text : string) : string :=
  match text with
  | EmptyString => EmptyString
  | String c rest =>
      match table_lookup table c with
      | Some r => r
      | None => str1 c
      end +:+ translate table rest
  end.

(** [text.replace(old, new)] for a one-character [old]. *)
Fixpoint replace (old : ascii) (new : string) (text : string) : string :=
  match text with
  | EmptyString => EmptyString
  | String c rest =>
      (if decide (c = old) then new else str1 c) +:+ replace old new rest
  end.

(** [re.search("[...]", text)] for a character class: is there a character
    of the class in [text]? *)
Fixpoint search_class (class : list ascii) (text : string) : bool :=
  match text with
  | EmptyString => false
  | String c rest => bool_decide (c ∈ class) || search_class class rest
  end.

(** The class [[\b\f\n\r\t]]; inside a class [\b] is the backspace. *)
Definition control_class : list ascii :=
  [BACKSPACE; FORMFEED; NEWLINE; CR; TAB].

Definition sql_quoted_string (text : string) : string :=
  if search_class control_class text then
    let string := translate _sql_quoted_str_table text in
    "E'" +:+ string +:+ "'"
  else
    let string := replace APOSTROPHE "''" text in
    "'" +:+ string +:+ "'".

End PostgreSQL.

(** ** A reference dialect *)

(** Modelled from the spec: the base rendering of the object model
    ([pysqlsync/formation/object_types.py], absent) as section 4.2 describes
    it: column form [name type [NOT NULL] [DEFAULT expr] [identity-clause]],
    [CREATE TABLE name (...)], [CREATE TYPE name AS ENUM (...)],
    [CREATE TYPE name AS (...)], identifiers in double quotes.  It is used to
    run the mutator on concrete trees. *)
Module Generic.

Definition QUOTE : string := str1 (chr 34).

Definition quote_part (s : string) : string := QUOTE +:+ s +:+ QUOTE.

Definition show_id (i : Identifier) : string :=
  match scope i with
  | Some ns => quote_part ns +:+ "." +:+ quote_part (id i)
  | None => quote_part (id i)
  end.

Definition str_nat (n : nat) : string :=
  NilZero.string_of_uint (Nat.to_uint n).

Definition show_data_type (t : SqlDataType) : string :=
  match t with
  | SqlBooleanType => "boolean"
  | SqlIntegerType w =>
      if decide (w ≤ 2) then "smallint"
      else if decide (w ≤ 4) then "integer" else "bigint"
  | SqlDecimalType p s => "decimal(" +:+ str_nat p +:+ ", " +:+ str_nat s +:+ ")"
  | SqlCharacterType (Some n) => "varchar(" +:+ str_nat n +:+ ")"
  | SqlCharacterType None => "text"
  | SqlTimestampType => "timestamp"
  | SqlEnumType r => show_id r
  | SqlStructType r => show_id r
  end.

Definition show_member (m : StructMember) : string :=
  show_id (name m) +:+ " " +:+ show_data_type (member_data_type m).

Definition column_spec (c : Column) : string :=
  show_id (name c) +:+ " " +:+ show_data_type (data_type c)
  +:+ (if nullable c then EmptyString else " NOT NULL")
  +:+ match default c with
      | Some e => " DEFAULT " +:+ e
      | None => EmptyString
      end
  +:+ (if identity c then " GENERATED BY DEFAULT AS IDENTITY" else EmptyString).

Definition render_alter_table_stmt (t : Table) (statements : list string) : string :=
  "ALTER TABLE " +:+ show_id (name t) +:+ NL
  +:+ join ("," +:+ NL) statements +:+ ";".

Definition render_table_create_stmt (t : Table) : string :=
  "CREATE TABLE " +:+ show_id (name t) +:+ " (" +:+ NL
  +:+ join ("," +:+ NL)
        (map column_spec (values (columns t))
         ++ ["PRIMARY KEY (" +:+ join ", " (map quote_part (primary_key t)) +:+ ")"]
         ++ map spec (filter (λ c, is_alter_table c = false) (constraints t)))
  +:+ NL +:+ ");".

Definition render_table_add_constraints_stmt (t : Table) : option string :=
  let deferred := filter (λ c, is_alter_table c = true) (constraints t) in
  if truthy_list deferred
  then Some (render_alter_table_stmt t (map (λ c, "ADD CONSTRAINT " +:+ spec c) deferred))
  else None.

Definition render_table_drop_constraints_stmt (t : Table) : option string :=
  let deferred := filter (λ c, is_alter_table c = true) (constraints t) in
  if truthy_list deferred
  then Some (render_alter_table_stmt t
               (map (λ c, "DROP CONSTRAINT " +:+ show_id (constraint_name c)) deferred))
  else None.

Definition render_enum_create_stmt (e : EnumType) : string :=
  "CREATE TYPE " +:+ show_id (name e) +:+ " AS ENUM ("
  +:+ join ", " (map PostgreSQL.sql_quoted_string (enum_values e)) +:+ ");".

Definition render_struct_create_stmt (s : StructType) : string :=
  "CREATE TYPE " +:+ show_id (name s) +:+ " AS ("
  +:+ join ", " (map show_member (values (struct_members s))) +:+ ");".

Definition render_namespace_create_stmt (n : Namespace) : string :=
  join NL
    (("CREATE SCHEMA " +:+ show_id (name n) +:+ ";")
     :: map render_enum_create_stmt (values (enums n))
     ++ map render_struct_create_stmt (values (structs n))
     ++ map render_table_create_stmt (values (tables n))).

Definition join_present (l : list (option string)) : option string :=
  let present := omap (λ o, o) l in
  if truthy_list present then Some (join NL present) else None.

Definition dialect : Dialect := {|
  str_id := show_id;
  str_data_type := show_data_type;
  str_member := show_member;
  constant := PostgreSQL.sql_quoted_string;
  enum_create_stmt := λ e, Ok (render_enum_create_stmt e);
  enum_drop_stmt := λ e, Ok ("DROP TYPE " +:+ show_id (name e) +:+ ";");
  struct_create_stmt := λ s, Ok (render_struct_create_stmt s);
  struct_drop_stmt := λ s, Ok ("DROP TYPE " +:+ show_id (name s) +:+ ";");
  column_create_stmt := λ c, Ok ("ADD COLUMN " +:+ column_spec c);
  column_drop_stmt := λ c, Ok ("DROP COLUMN " +:+ show_id (name c));
  table_create_stmt := λ t, Ok (render_table_create_stmt t);
  table_drop_stmt := λ t, Ok ("DROP TABLE " +:+ show_id (name t) +:+ ";");
  alter_table_stmt := render_alter_table_stmt;
  table_add_constraints_stmt := λ t, Ok (render_table_add_constraints_stmt t);
  namespace_create_stmt := λ n, Ok (render_namespace_create_stmt n);
  namespace_drop_stmt :=
    λ n, Ok ("DROP SCHEMA " +:+ show_id (name n) +:+ " CASCADE;");
  namespace_add_constraints_stmt :=
    λ n, Ok (join_present (map render_table_add_constraints_stmt (values (tables n))));
  namespace_drop_constraints_stmt :=
    λ n, Ok (join_present (map render_table_drop_constraints_stmt (values (tables n))));
|}.

(** A dialect without composite column types: rendering a column of a
    struct type raises a [ColumnFormationError]. *)
Definition column_guard (stmt : Column → result string) (c : Column)
  : result string :=
  match data_type c with
  | SqlStructType _ =>
      Raise (ColumnFormationError "composite types are not supported" (name c))
  | _ => stmt c
  end.

Definition dialect_without_structs : Dialect := {|
  str_id := show_id;
  str_data_type := show_data_type;
  str_member := show_member;
  constant := constant dialect;
  enum_create_stmt := enum_create_stmt dialect;
  enum_drop_stmt := enum_drop_stmt dialect;
  struct_create_stmt := struct_create_stmt dialect;
  struct_drop_stmt := struct_drop_stmt dialect;
  column_create_stmt := column_guard (column_create_stmt dialect);
  column_drop_stmt := column_guard (column_drop_stmt dialect);
  table_create_stmt := table_create_stmt dialect;
  table_drop_stmt := table_drop_stmt dialect;
  alter_table_stmt := render_alter_table_stmt;
  table_add_constraints_stmt := table_add_constraints_stmt dialect;
  namespace_create_stmt := namespace_create_stmt dialect;
  namespace_drop_stmt := namespace_drop_stmt dialect;
  namespace_add_constraints_stmt := namespace_add_constraints_stmt dialect;
  namespace_drop_constraints_stmt := namespace_drop_constraints_stmt dialect;
|}.

End Generic.

(** ** Vocabulary of the properties *)

(** The children of [these] whose key is absent from [those], in the order
    of [these]: the target-only children when [these] is the target, the
    source-only children when it is the source. *)
Definition only_in {T} (these those : Mapping T) : list T :=
  values (filter (λ kv, kv.1 ∉ keys those) these).

(** The pairs of children stored under the same key in both mappings, in
    source order. *)
Definition in_both {T} (source target : Mapping T) : list (T * T) :=
  omap (λ kv, match get target kv.1 with
              | Some t => Some (kv.2, t)
              | None => None
              end) source.

(** The statements a loop keeps: those that are neither [None] nor empty. *)
Definition kept (l : list (option string)) : list string :=
  concat (map (append_stmt []) l).

(** What the first loop of [mutate_table_stmt] contributes for one target
    column: the create fragment of a new column, or the alter clause of an
    existing one when there is one. *)
Definition column_step (d : Dialect)
    (mutate_column : Column → Column → result (option string))
    (source : Table) (target_column : Column) : result (list string) :=
  match get (columns source) (id (name target_column)) with
  | None => let* s := column_create_stmt d target_column in Ok [s]
  | Some source_column =>
      let* statement := mutate_column source_column target_column in
      Ok (append_stmt [] statement)
  end.

(** The target-only and the source-only columns of a pair of tables, and the
    pairs of columns present in both, matched as the mutator matches them. *)
Definition new_columns (source target : Table) : list Column :=
  filter (λ c, get (columns source) (id (name c)) = None) (values (columns target)).

Definition common_columns (source target : Table) : list (Column * Column) :=
  omap (λ c, match get (columns source) (id (name c)) with
             | Some s => Some (s, c)
             | None => None
             end) (values (columns target)).

Definition removed_columns (source target : Table) : list Column :=
  filter (λ c, id (name c) ∉ keys (columns target)) (values (columns source)).

(** The ordering "all creates, then all mutations, then all drops" read at
    the level of the columns of a table. *)
Definition table_creates_then_mutations (d : Dialect)
    (mutate_column : Column → Column → result (option string))
    (source target : Table) : Prop :=
  ∀ fragments creates mutations,
    Mutator.mutate_table_fragments d mutate_column source target = Ok fragments →
    mapM (column_create_stmt d) (new_columns source target) = Ok creates →
    mapM (λ p, mutate_column p.1 p.2) (common_columns source target) = Ok mutations →
    ∃ rest, fragments = creates ++ kept mutations ++ rest.

(** The decomposition of the statement list of a catalog diff into its
    phases: creates of the target-only namespaces, their deferred
    add-constraints, the mutations of the namespaces present in both trees,
    the drop-constraints of the source-only namespaces, their drops. *)
Definition catalog_phases (d : Dialect)
    (fn : Column → Column → result (option string))
    (source target : Catalog) (statements : list string) : Prop :=
  ∃ creates adds mutations drop_constraints drops,
    mapM (namespace_create_stmt d)
         (only_in (namespaces target) (namespaces source)) = Ok creates
    ∧ mapM (namespace_add_constraints_stmt d)
           (only_in (namespaces target) (namespaces source)) = Ok adds
    ∧ mapM (λ p, Mutator.mutate_namespace_stmt d fn p.1 p.2)
           (in_both (namespaces source) (namespaces target)) = Ok mutations
    ∧ mapM (namespace_drop_constraints_stmt d)
           (only_in (namespaces source) (namespaces target)) = Ok drop_constraints
    ∧ mapM (namespace_drop_stmt d)
           (only_in (namespaces source) (namespaces target)) = Ok drops
    ∧ statements
      = creates ++ kept adds ++ kept mutations ++ kept drop_constraints ++ drops.

(** The same for a namespace: creates of enums, structs, tables; deferred
    add-constraints of the new tables; mutations of enums, structs, tables;
    drops of tables, structs, enums. *)
Definition namespace_phases (d : Dialect)
    (fn : Column → Column → result (option string))
    (source target : Namespace) (statements : list string) : Prop :=
  ∃ enum_creates struct_creates table_creates adds
    enum_mutations struct_mutations table_mutations
    table_drops struct_drops enum_drops,
    mapM (enum_create_stmt d) (only_in (enums target) (enums source))
      = Ok enum_creates
    ∧ mapM (struct_create_stmt d) (only_in (structs target) (structs source))
      = Ok struct_creates
    ∧ mapM (table_create_stmt d) (only_in (tables target) (tables source))
      = Ok table_creates
    ∧ mapM (table_add_constraints_stmt d)
           (only_in (tables target) (tables source)) = Ok adds
    ∧ mapM (λ p, Mutator.mutate_enum_stmt d p.1 p.2)
           (in_both (enums source) (enums target)) = Ok enum_mutations
    ∧ mapM (λ p, Mutator.mutate_struct_stmt d p.1 p.2)
           (in_both (structs source) (structs target)) = Ok struct_mutations
    ∧ mapM (λ p, Mutator.mutate_table_stmt d fn p.1 p.2)
           (in_both (tables source) (tables target)) = Ok table_mutations
    ∧ mapM (table_drop_stmt d) (only_in (tables source) (tables target))
      = Ok table_drops
    ∧ mapM (struct_drop_stmt d) (only_in (structs source) (structs target))
      = Ok struct_drops
    ∧ mapM (enum_drop_stmt d) (only_in (enums source) (enums target))
      = Ok enum_drops
    ∧ statements
      = (enum_creates ++ struct_creates ++ table_creates)
        ++ kept adds
        ++ (kept enum_mutations ++ kept struct_mutations ++ kept table_mutations)
        ++ (table_drops ++ struct_drops ++ enum_drops).

(** The fragments of a table diff: what each target column contributes, in
    target column order (a create fragment for a new column, an alter clause
    for a changed one), then the drops of the source-only columns, then the
    constraint fragments. *)
Definition table_phases (d : Dialect)
    (fn : Column → Column → result (option string))
    (source target : Table) (fragments : list string) : Prop :=
  ∃ per_column drops,
    mapM (column_step d fn source) (values (columns target)) = Ok per_column
    ∧ mapM (column_drop_stmt d) (removed_columns source target) = Ok drops
    ∧ fragments = concat per_column ++ drops
                  ++ Mutator.mutate_constraints d source target [].

(** Well-formed trees: a table stores each column under the column's own
    [name.id], once. *)
Definition table_ok (t : Table) : Prop :=
  dict_ok (columns t) ∧ keyed_by_id (columns t).

Definition namespace_ok (n : Namespace) : Prop :=
  Forall table_ok (values (tables n)).

Definition catalog_ok (c : Catalog) : Prop :=
  Forall namespace_ok (values (namespaces c)).

Definition namespace_dicts_ok (n : Namespace) : Prop :=
  dict_ok (enums n) ∧ dict_ok (structs n) ∧ dict_ok (tables n).

(** The four attributes [mutate_column_stmt] compares one by one. *)
Definition same_type (s t : Column) : Prop := data_type s = data_type t.
Definition same_nullability (s t : Column) : Prop := nullable s = nullable t.
Definition same_default (s t : Column) : Prop := default s = default t.
Definition same_identity (s t : Column) : Prop := identity s = identity t.

(** The fragment the column round-trip property names for each attribute. *)
Definition type_fragment (d : Dialect) (t : Column) : string :=
  "SET DATA TYPE " +:+ str_data_type d (data_type t).

Definition nullability_fragment (t : Column) : string :=
  if nullable t then "DROP NOT NULL" else "SET NOT NULL".

Definition default_fragment (t : Column) : string :=
  match default t with
  | None => "DROP DEFAULT"
  | Some e => "SET DEFAULT " +:+ e
  end.

Definition identity_fragment (t : Column) : string :=
  if identity t then "ADD GENERATED BY DEFAULT AS IDENTITY" else "DROP IDENTITY".

Definition alter_column (d : Dialect) (s : Column) (fragment : string) : string :=
  "ALTER COLUMN " +:+ str_id d (name s) +:+ " " +:+ fragment.

(** One fragment when an attribute changed, none otherwise; and the
    fragment list of a column read attribute by attribute. *)
Definition changed {A} `{EqDecision A} (a b : A) (fragment : string)
  : list string :=
  if decide (a ≠ b) then [fragment] else [].

Definition attribute_fragments (d : Dialect) (s t : Column) : list string :=
  changed (data_type s) (data_type t) (type_fragment d t)
  ++ changed (nullable s) (nullable t) (nullability_fragment t)
  ++ changed (default s) (default t) (default_fragment t)
  ++ changed (identity s) (identity t) (identity_fragment t).

(** The change the Oracle override names for each attribute. *)
Definition oracle_attribute_changes (d : Dialect) (default_expr : Column → string)
    (s t : Column) : list string :=
  changed (data_type s) (data_type t) (str_data_type d (data_type t))
  ++ changed (default s) (default t)
       (match default t with
        | Some _ => "DEFAULT " +:+ default_expr t
        | None => "DEFAULT NULL"
        end)
  ++ changed (nullable s) (nullable t) (if nullable t then "NULL" else "NOT NULL")
  ++ changed (identity s) (identity t)
       (if identity t then "GENERATED BY DEFAULT AS IDENTITY" else "DROP IDENTITY").

(** The constraint fragments of a table diff, by the emptiness of the two
    constraint lists. *)
Definition drop_constraint_fragments (d : Dialect) (source : Table) : list string :=
  map (λ c, "DROP CONSTRAINT " +:+ str_id d (constraint_name c))
      (List.filter is_alter_table (constraints source)).

Definition add_constraint_fragments (target : Table) : list string :=
  map (λ c, "ADD CONSTRAINT " +:+ spec c)
      (List.filter is_alter_table (constraints target)).

(** The characters of a string. *)
Definition chars (text : string) : list ascii := list_ascii_of_string text.

(** The escape of one character in an extended ([E'...']) literal and in a
    plain literal, written case by case. *)
Definition escape_extended (c : ascii) : string :=
  if decide (c = BACKSLASH) then "\\"
  else if decide (c = APOSTROPHE) then "\'"
  else if decide (c = BACKSPACE) then "\b"
  else if decide (c = FORMFEED) then "\f"
  else if decide (c = NEWLINE) then "\n"
  else if decide (c = CR) then "\r"
  else if decide (c = TAB) then "\t"
  else str1 c.

Definition escape_plain (c : ascii) : string :=
  if decide (c = APOSTROPHE) then "''" else str1 c.

Fixpoint concat_map (f : ascii → string) (text : string) : string :=
  match text with
  | EmptyString => EmptyString
  | String c rest => f c +:+ concat_map f rest
  end.

Definition escaped_characters : list ascii :=
  [BACKSLASH; APOSTROPHE; BACKSPACE; FORMFEED; NEWLINE; CR; TAB].

(** "The renderer escapes character [c]": whenever [c] occurs in the input,
    the literal is not the input copied between the quotes. *)
Definition escapes (c : ascii) : Prop :=
  ∀ text, c ∈ chars text →
    PostgreSQL.sql_quoted_string text ≠ "'" +:+ text +:+ "'".

(** ** Concrete trees *)

Module Examples.

Definition mood_ab : EnumType := mkEnum (LocalId "mood") ["a"; "b"].
Definition mood_abc : EnumType := mkEnum (LocalId "mood") ["a"; "b"; "c"].
Definition colour : EnumType := mkEnum (LocalId "colour") ["red"].

Definition member_x : StructMember :=
  mkMember (LocalId "x") (SqlIntegerType 4) None.
Definition member_y : StructMember :=
  mkMember (LocalId "y") (SqlIntegerType 4) None.
Definition member_z : StructMember :=
  mkMember (LocalId "z") (SqlIntegerType 4) None.

Definition point_x : StructType :=
  mkStruct (LocalId "point") [("x", member_x)] None.
Definition point_xy : StructType :=
  mkStruct (LocalId "point") [("x", member_x); ("y", member_y)] None.
Definition point_xz : StructType :=
  mkStruct (LocalId "point") [("x", member_x); ("z", member_z)] None.
Definition shape : StructType :=
  mkStruct (LocalId "shape") [("x", member_x)] None.

Definition col_id : Column :=
  mkColumn (LocalId "id") (SqlIntegerType 4) false None false None.
Definition col_name : Column :=
  mkColumn (LocalId "name") (SqlCharacterType None) true None false None.
Definition col_name_not_null : Column :=
  mkColumn (LocalId "name") (SqlCharacterType None) false None false None.
Definition col_name_described : Column :=
  mkColumn (LocalId "name") (SqlCharacterType None) true None false
           (Some "full name").
Definition col_name_varchar : Column :=
  mkColumn (LocalId "name") (SqlCharacterType (Some 64)) true None false None.
Definition col_name_default : Column :=
  mkColumn (LocalId "name") (SqlCharacterType None) true (Some "'?'") false None.
Definition col_name_identity : Column :=
  mkColumn (LocalId "name") (SqlCharacterType None) true None true None.
Definition col_email : Column :=
  mkColumn (LocalId "email") (SqlCharacterType None) true None false None.
Definition col_origin : Column :=
  mkColumn (LocalId "origin") (SqlStructType (LocalId "point")) true None false None.

Definition fk_owner : Constraint :=
  mkConstraint (LocalId "fk_owner")
    "fk_owner FOREIGN KEY (owner) REFERENCES users (id)" true.
Definition uq_name : Constraint :=
  mkConstraint (LocalId "uq_name") "uq_name UNIQUE (name)" false.

Definition users (cols : list Column) (cons : list Constraint) : Table :=
  mkTable (QualifiedId "app" "users")
          (map (λ c, (id (name c), c)) cols) ["id"] cons None.

Definition orders (cols : list Column) (cons : list Constraint) : Table :=
  mkTable (QualifiedId "app" "orders")
          (map (λ c, (id (name c), c)) cols) ["id"] cons None.

(** The scenario of the spec: [users(id, name)] becomes
    [users(id, name NOT NULL, email)]. *)
Definition users_source : Table := users [col_id; col_name] [].
Definition users_target : Table := users [col_id; col_name_not_null; col_email] [].

Definition orders_plain : Table := orders [col_id] [].
Definition orders_with_origin : Table := orders [col_id; col_origin] [].
Definition orders_constrained : Table := orders [col_id] [fk_owner; uq_name].
Definition orders_other_constraint : Table := orders [col_id] [uq_name].

Definition app (es : list EnumType) (ss : list StructType) (ts : list Table)
  : Namespace :=
  mkNamespace (LocalId "app")
    (map (λ e, (id (name e), e)) es)
    (map (λ s, (id (name s), s)) ss)
    (map (λ t, (id (name t), t)) ts).

Definition app_source : Namespace :=
  app [mood_ab; colour] [point_xy; shape] [users_source; orders_constrained].
Definition app_target : Namespace :=
  app [mood_abc] [point_x] [users_target].
Definition audit : Namespace :=
  mkNamespace (LocalId "audit") [] [] [("orders", orders_constrained)].
Definition legacy : Namespace :=
  mkNamespace (LocalId "legacy") [] [] [("orders", orders_constrained)].

Definition catalog_source : Catalog :=
  mkCatalog [("app", app_source); ("legacy", legacy)].
Definition catalog_target : Catalog :=
  mkCatalog [("audit", audit); ("app", app_target)].

End Examples.

(** * The rest of the dialect code *)

(** ** Python built-ins used by the dialects *)

(** [c in s] for a one-character [c]. *)
Fixpoint str_contains (c : ascii) (s : string) : bool :=
  match s with
  | EmptyString => false
  | String x rest => if decide (x = c) then true else str_contains c rest
  end.

(** [s.index(c)] for a one-character [c]: the first position of [c]; [None]
    stands for the [ValueError] Python raises when [c] is absent. *)
Fixpoint str_index (c : ascii) (s : string) : option nat :=
  match s with
  | EmptyString => None
  | String x rest =>
      if decide (x = c) then Some 0
      else match str_index c rest with
           | Some i => Some (S i)
           | None => None
           end
  end.

(** [s[:n]] for [n >= 0]: the first [n] characters, all of [s] when it is
    shorter. *)
Fixpoint str_take (n : nat) (s : string) : string :=
  match n, s with
  | S n', String x rest => String x (str_take n' rest)
  | _, _ => EmptyString
  end.

(** [len(s)].  A Python [str] is a sequence of code points; a string here
    holds its UTF-8 encoding, one byte per character of the string.  In
    UTF-8 a code point is one leading byte followed by its continuation
    bytes, the bytes [10xxxxxx] (128 to 191), so [len] counts the bytes that
    are not continuation bytes.  On ASCII text this is the number of
    bytes. *)
Definition continuation_byte (c : ascii) : bool :=
  match c with
  | Ascii _ _ _ _ _ _ false true => true
  | _ => false
  end.

Fixpoint py_len (s : string) : nat :=
  match s with
  | EmptyString => 0
  | String c rest =>
      if continuation_byte c then py_len rest else S (py_len rest)
  end.

(** [str(n)] of a Python [int]. *)
Definition str_int (n : Z) : string := NilZero.string_of_int (Z.to_int n).

(** Python truthiness of a [str]. *)
Definition truthy_str (s : string) : bool :=
  match s with EmptyString => false | String _ _ => true end.

(** The exceptions of the dialect code: the formation errors and Python's
    own [ValueError]. *)
Inductive PyExn : Type :=
| Formation (e : Exn)
| ValueError (msg : string).

Inductive py (A : Type) : Type :=
| Return (a : A)
| Throw (e : PyExn).
Arguments Return {A} a.
Arguments Throw {A} e.

Definition pbind {A B} (m : py A) (k : A → py B) : py B :=
  match m with
  | Return a => k a
  | Throw e => Throw e
  end.

Notation "'let+' x ':=' m 'in' k" := (pbind m (fun x => k))
  (at level 10, x pattern, m at level 100, k at level 200).

Fixpoint pmapM {A B} (f : A → py B) (l : list A) : py (list B) :=
  match l with
  | [] => Return []
  | x :: l' => let+ y := f x in let+ ys := pmapM f l' in Return (y :: ys)
  end.

(** ** [pysqlsync/dialect/mysql/object_types.py] *)

Module MySQL.
Section MySQL.
(** [quote] of [pysqlsync/model/data_types.py] (applied to a [str] and to
    the [Optional[str]] value of [short_description]) and the [__str__]
    methods of identifiers, data types and columns, with the two primary-key
    properties of [Table], are not under [src/]. *)
Variable quote : option string → string.
Variable str_id : Identifier → string.
Variable str_data_type : SqlDataType → string.
Variable str_column : Column → py string.
Variable primary_key_constraint_id : Table → string.
Variable str_primary_key : Table → string.

(** The expression [description if "\n" not in description else
    description[: description.index("\n")]], written out in both
    [MySQLTable.short_description] and [MySQLColumn.comment]. *)
Definition first_line (description : string) : py string :=
  if negb (str_contains NEWLINE description) then Return description
  else
    match str_index NEWLINE description with
    | Some i => Return (str_take i description)
    | None => Throw (ValueError "substring not found")
    end.

(** [MySQLTable.short_description] *)
Definition short_description (self : Table) : py (option string) :=
  match table_description self with
  | None => Return None
  | Some description =>
      let+ line := first_line description in Return (Some line)
  end.

(** [MySQLTable.create_stmt] *)
Definition create_stmt (self : Table) : py string :=
  let defs : list string := [] in
  let+ cols := pmapM str_column (values (columns self)) in
  let defs := defs ++ cols in
  let defs :=
    defs ++ ["CONSTRAINT " +:+ primary_key_constraint_id self
             +:+ " PRIMARY KEY (" +:+ str_primary_key self +:+ ")"] in
  let definition := join ("," +:+ NL) defs in
  let+ condition := short_description self in
  let+ comment :=
    if truthy_stmt condition then
      let+ short := short_description self in
      Return (NL +:+ "COMMENT = " +:+ quote short)
    else Return EmptyString in
  Return ("CREATE TABLE " +:+ str_id (name self) +:+ " (" +:+ NL
          +:+ definition +:+ NL +:+ ")" +:+ comment +:+ ";").

(** [MySQLColumn.comment] *)
Definition comment (self : Column) : py (option string) :=
  match description self with
  | Some text =>
      let+ description := first_line text in
      if decide (1024 < py_len description) then
        Throw (Formation (FormationError
                 ("comment for column " +:+ str_id (name self)
                  +:+ " too long, expected: maximum 1024; got: "
                  +:+ str_int (Z.of_nat (py_len description)))))
      else Return (Some (quote (Some description)))
  | None => Return None
  end.

(** [MySQLColumn.data_spec] *)
Definition data_spec (self : Column) : py string :=
  let charset :=
    match data_type self with
    | SqlEnumType _ => " CHARACTER SET ascii COLLATE ascii_bin"
    | _ => EmptyString
    end in
  let nullable := if negb (nullable self) then " NOT NULL" else EmptyString in
  let default :=
    match default self with
    | Some e => " DEFAULT " +:+ e
    | None => EmptyString
    end in
  let identity := if identity self then " AUTO_INCREMENT" else EmptyString in
  let+ description :=
    match description self with
    | Some _ =>
        let+ c := comment self in Return (" COMMENT " +:+ str_optional c)
    | None => Return EmptyString
    end in
  Return (str_data_type (data_type self) +:+ charset +:+ nullable +:+ default
          +:+ identity +:+ description).

End MySQL.
End MySQL.

(** ** [PostgreSQLTable] and [PostgreSQLStructType] *)

Module PostgreSQLObjects.
Section PostgreSQLObjects.
(** [super().create_stmt()] and [__str__] of identifiers live in the absent
    [pysqlsync/formation/object_types.py]. *)
Variable str_id : Identifier → string.
Variable Table_create_stmt : Table → result string.
Variable StructType_create_stmt : StructType → result string.

(** [PostgreSQLTable.create_stmt] *)
Definition table_create_stmt (self : Table) : result string :=
  let statements : list string := [] in
  let* base := Table_create_stmt self in
  let statements := statements ++ [base] in
  let statements :=
    match table_description self with
    | Some text =>
        statements ++ ["COMMENT ON TABLE " +:+ str_id (name self) +:+ " IS "
                       +:+ PostgreSQL.sql_quoted_string text +:+ ";"]
    | None => statements
    end in
  let statements :=
    fold_left
      (λ statements column,
         match description column with
         | Some text =>
             statements ++ ["COMMENT ON COLUMN " +:+ str_id (name self) +:+ "."
                            +:+ str_id (name column) +:+ " IS "
                            +:+ PostgreSQL.sql_quoted_string text +:+ ";"]
         | None => statements
         end)
      (values (columns self)) statements in
  Ok (join NL statements).

(** [PostgreSQLStructType.create_stmt] *)
Definition struct_create_stmt (self : StructType) : result string :=
  let statements : list string := [] in
  let* base := StructType_create_stmt self in
  let statements := statements ++ [base] in
  let statements :=
    match struct_description self with
    | Some text =>
        statements ++ ["COMMENT ON TYPE " +:+ str_id (name self) +:+ " IS "
                       +:+ PostgreSQL.sql_quoted_string text +:+ ";"]
    | None => statements
    end in
  let statements :=
    fold_left
      (λ statements member,
         match member_description member with
         | Some text =>
             statements ++ ["COMMENT ON COLUMN " +:+ str_id (name self) +:+ "."
                            +:+ str_id (name member) +:+ " IS "
                            +:+ PostgreSQL.sql_quoted_string text +:+ ";"]
         | None => statements
         end)
      (values (struct_members self)) statements in
  Ok (join NL statements).

End PostgreSQLObjects.
End PostgreSQLObjects.

(** ** [pysqlsync/base.py] and [pysqlsync/dialect/mssql/connection.py] *)

(** [Parameters] of [pysqlsync/base.py]. *)
Record Parameters := mkParameters {
  host : option string;
  port : option Z;
  username : option string;
  password : option string;
  database : option string;
}.

Module MSSQL.

(** The dict [params] built in [MSSQLConnection.open], in insertion order. *)
Definition open_params (params : Parameters) : list (string * option string) :=
  [ ("DRIVER", Some "{ODBC Driver 18 for SQL Server}");
    ("SERVER",
      match port params with
      | Some p => Some (str_optional (host params) +:+ "," +:+ str_int p)
      | None => host params
      end);
    ("UID", username params);
    ("PWD", password params);
    ("TrustServerCertificate", Some "yes") ].

(** [conn_string], the argument of [pyodbc.connect]. *)
Definition conn_string (params : Parameters) : string :=
  join ";"
    (omap (λ kv, match kv.2 with
                 | Some value => Some (kv.1 +:+ "=" +:+ value)
                 | None => None
                 end)
          (open_params params)).

(** [order] in [_insert_rows] and [_upsert_rows]:
    [tuple(name for name in field_names if name) if field_names else None]. *)
Definition order (field_names : option (list string)) : option (list string) :=
  match field_names with
  | Some names =>
      if truthy_list names
      then Some (List.filter truthy_str names)
      else None
  | None => None
  end.

End MSSQL.

(** ** Vocabulary of the further properties *)

(** Reading a PostgreSQL string literal back: the decoder of the two literal
    forms [sql_quoted_string] writes.  [None] when the text is not one
    complete literal. *)
Definition unescape (x : ascii) : option ascii :=
  if decide (x = BACKSLASH) then Some BACKSLASH
  else if decide (x = APOSTROPHE) then Some APOSTROPHE
  else if decide (x = "b"%char) then Some BACKSPACE
  else if decide (x = "f"%char) then Some FORMFEED
  else if decide (x = "n"%char) then Some NEWLINE
  else if decide (x = "r"%char) then Some CR
  else if decide (x = "t"%char) then Some TAB
  else None.

(** The body of an extended literal, up to and with the closing apostrophe. *)
Fixpoint read_extended (body : string) : option string :=
  match body with
  | EmptyString => None
  | String c rest =>
      if decide (c = APOSTROPHE) then
        match rest with
        | EmptyString => Some EmptyString
        | String _ _ => None
        end
      else if decide (c = BACKSLASH) then
        match rest with
        | EmptyString => None
        | String x rest' =>
            match unescape x, read_extended rest' with
            | Some u, Some r => Some (String u r)
            | _, _ => None
            end
        end
      else
        match read_extended rest with
        | Some r => Some (String c r)
        | None => None
        end
  end.

(** The body of a plain literal: a doubled apostrophe is an apostrophe, a
    single one closes the literal. *)
Fixpoint read_plain (body : string) : option string :=
  match body with
  | EmptyString => None
  | String c rest =>
      if decide (c = APOSTROPHE) then
        match rest with
        | EmptyString => Some EmptyString
        | String c' rest' =>
            if decide (c' = APOSTROPHE) then
              match read_plain rest' with
              | Some r => Some (String APOSTROPHE r)
              | None => None
              end
            else None
        end
      else
        match read_plain rest with
        | Some r => Some (String c r)
        | None => None
        end
  end.

Definition unquote (literal : string) : option string :=
  match literal with
  | String c body =>
      if decide (c = APOSTROPHE) then read_plain body
      else if decide (c = "E"%char) then
        match body with
        | String c' body' =>
            if decide (c' = APOSTROPHE) then read_extended body' else None
        | EmptyString => None
        end
      else None
  | EmptyString => None
  end.

(** The comment statements the PostgreSQL overrides append. *)
Definition table_comments (str_id : Identifier → string) (t : Table)
  : list string :=
  match table_description t with
  | Some text =>
      ["COMMENT ON TABLE " +:+ str_id (name t) +:+ " IS "
       +:+ PostgreSQL.sql_quoted_string text +:+ ";"]
  | None => []
  end
  ++ omap (λ c, match description c with
                | Some text =>
                    Some ("COMMENT ON COLUMN " +:+ str_id (name t) +:+ "."
                          +:+ str_id (name c) +:+ " IS "
                          +:+ PostgreSQL.sql_quoted_string text +:+ ";")
                | None => None
                end)
          (values (columns t)).

Definition struct_comments (str_id : Identifier → string) (s : StructType)
  : list string :=
  match struct_description s with
  | Some text =>
      ["COMMENT ON TYPE " +:+ str_id (name s) +:+ " IS "
       +:+ PostgreSQL.sql_quoted_string text +:+ ";"]
  | None => []
  end
  ++ omap (λ m, match member_description m with
                | Some text =>
                    Some ("COMMENT ON COLUMN " +:+ str_id (name s) +:+ "."
                          +:+ str_id (name m) +:+ " IS "
                          +:+ PostgreSQL.sql_quoted_string text +:+ ";")
                | None => None
                end)
          (values (struct_members s)).

(** The first line of a text: its characters up to the first newline. *)
Fixpoint line_of (text : string) : string :=
  match text with
  | EmptyString => EmptyString
  | String c rest =>
      if decide (c = NEWLINE) then EmptyString else String c (line_of rest)
  end.

(** The [COMMENT] clause of a MySQL table: the first line of the
    description when that line is not empty. *)
Definition mysql_table_comment (quote : option string → string) (t : Table)
  : string :=
  match table_description t with
  | Some text =>
      if truthy_str (line_of text)
      then NL +:+ "COMMENT = " +:+ quote (Some (line_of text))
      else EmptyString
  | None => EmptyString
  end.

(** A namespace without children. *)
Definition empty_namespace (n : Namespace) : Prop :=
  enums n = [] ∧ structs n = [] ∧ tables n = [].

(** How many of the four compared attributes differ. *)
Definition differing_attributes (s t : Column) : nat :=
  length (changed (data_type s) (data_type t) EmptyString
          ++ changed (nullable s) (nullable t) EmptyString
          ++ changed (default s) (default t) EmptyString
          ++ changed (identity s) (identity t) EmptyString).

(** ** Further concrete inputs *)

Module MoreExamples.

Definition two_lines : string := "first line" +:+ NL +:+ "second line".

Definition described_users : Table :=
  mkTable (QualifiedId "app" "users")
          [("id", Examples.col_id); ("name", Examples.col_name_described)]
          ["id"] [] (Some two_lines).

Definition col_noted : Column :=
  mkColumn (LocalId "note") (SqlEnumType (LocalId "mood")) false (Some "'a'")
           false (Some two_lines).

Definition described_point : StructType :=
  mkStruct (LocalId "point")
           [("x", mkMember (LocalId "x") (SqlIntegerType 4) (Some "abscissa"))]
           (Some "a point").

Definition col_long_comment : Column :=
  mkColumn (LocalId "note") (SqlCharacterType None) true None false
           (Some (string_of_list_ascii (repeat "x"%char 1025))).

Definition col_long_second_line : Column :=
  mkColumn (LocalId "note") (SqlCharacterType None) true None false
           (Some ("short" +:+ NL +:+ string_of_list_ascii (repeat "x"%char 1025))).

(** The euro sign, U+20AC: one code point, three bytes in UTF-8. *)
Definition euro : string := String (chr 226) (String (chr 130) (str1 (chr 172))).

(** ["€" * n] *)
Fixpoint euros (n : nat) : string :=
  match n with
  | 0 => EmptyString
  | S n' => euro +:+ euros n'
  end.

(** 400 code points in 1200 bytes. *)
Definition col_euro_comment : Column :=
  mkColumn (LocalId "price") (SqlCharacterType None) true None false
           (Some (euros 400)).

(** 1025 code points. *)
Definition col_long_euro_comment : Column :=
  mkColumn (LocalId "price") (SqlCharacterType None) true None false
           (Some (euros 1025)).

Definition in_apostrophes (o : option string) : string :=
  "'" +:+ str_optional o +:+ "'".

Definition local_server : Parameters :=
  mkParameters (Some "localhost") (Some 1433%Z) (Some "sa") None (Some "master").

Definition port_only : Parameters :=
  mkParameters None (Some 1433%Z) None None None.

Definition mood_ba : EnumType := mkEnum (LocalId "mood") ["b"; "a"; "b"].

Definition empty_app : Namespace := mkNamespace (LocalId "app") [] [] [].

(** A dialect whose column rendering fails with a plain [FormationError],
    as [MySQLColumn.comment] does for a long comment. *)
Definition long_comment : Exn := FormationError "comment too long".

Definition column_limit (stmt : Column → result string) (c : Column)
  : result string :=
  match description c with
  | Some _ => Raise long_comment
  | None => stmt c
  end.

Definition dialect_with_limit : Dialect := {|
  str_id := str_id Generic.dialect;
  str_data_type := str_data_type Generic.dialect;
  str_member := str_member Generic.dialect;
  constant := constant Generic.dialect;
  enum_create_stmt := enum_create_stmt Generic.dialect;
  enum_drop_stmt := enum_drop_stmt Generic.dialect;
  struct_create_stmt := struct_create_stmt Generic.dialect;
  struct_drop_stmt := struct_drop_stmt Generic.dialect;
  column_create_stmt := column_limit (column_create_stmt Generic.dialect);
  column_drop_stmt := column_limit (column_drop_stmt Generic.dialect);
  table_create_stmt := table_create_stmt Generic.dialect;
  table_drop_stmt := table_drop_stmt Generic.dialect;
  alter_table_stmt := alter_table_stmt Generic.dialect;
  table_add_constraints_stmt := table_add_constraints_stmt Generic.dialect;
  namespace_create_stmt := namespace_create_stmt Generic.dialect;
  namespace_drop_stmt := namespace_drop_stmt Generic.dialect;
  namespace_add_constraints_stmt := namespace_add_constraints_stmt Generic.dialect;
  namespace_drop_constraints_stmt := namespace_drop_constraints_stmt Generic.dialect;
|}.

Definition users_plain : Table :=
  Examples.users [Examples.col_id] [].
Definition users_with_described : Table :=
  Examples.users [Examples.col_id; Examples.col_name_described] [].

End MoreExamples.

(** ** Proof steps used more than once *)

(** Closed decidable facts about concrete trees, by evaluation. *)
Ltac by_compute := apply (bool_decide_unpack _); vm_compute; exact I.

(** Well-formedness of a concrete tree, by evaluation. *)
Ltac ok_by_compute :=
  unfold catalog_ok, namespace_ok, namespace_dicts_ok, table_ok, dict_ok,
    keyed_by_id;
  by_compute.

(** * Properties *)

Import Examples.

(** ** The error monad and its loops *)

Lemma rbind_Ok_inv {A B} (m : result A) (k : A → result B) (b : B) :
  rbind m k = Ok b → ∃ a, m = Ok a ∧ k a = Ok b.
Proof. destruct m as [a|e]; simpl; [eauto | discriminate]. Qed.

(** Splits a successful [let*] chain in a hypothesis, one binding at a
    time. *)
Ltac split_run H :=
  repeat match type of H with
         | rbind ?m _ = Ok _ =>
             let r := fresh "r" in
             let Hr := fresh "Hr" in
             apply rbind_Ok_inv in H as (r & Hr & H)
         end.

Lemma foldM_ext {A B} (f g : A → B → result A) (acc : A) (l : list B) :
  (∀ a x, x ∈ l → f a x = g a x) → foldM f acc l = foldM g acc l.
Proof.
  revert acc. induction l as [|x l IH]; intros acc Hfg; simpl; [done|].
  rewrite Hfg by (apply elem_of_cons; auto).
  destruct (g acc x) as [a|e]; simpl; [|done].
  apply IH. intros a' y Hy. apply Hfg, elem_of_cons; auto.
Qed.

(** A loop whose body only appends to the accumulator yields the
    accumulator followed by the contributions of the items, in order. *)
Lemma foldM_append {B} (g : B → result (list string)) (acc : list string)
    (l : list B) :
  foldM (λ acc x, let* ys := g x in Ok (acc ++ ys)) acc l
  = let* r := mapM g l in Ok (acc ++ concat r).
Proof.
  revert acc. induction l as [|x l IH]; intros acc; simpl.
  - by rewrite app_nil_r.
  - destruct (g x) as [ys|e]; simpl; [|done].
    rewrite IH. destruct (mapM g l) as [r|e]; simpl; [|done].
    by rewrite app_assoc.
Qed.

Lemma mapM_ext {A B} (f g : A → result B) (l : list A) :
  (∀ x, x ∈ l → f x = g x) → mapM f l = mapM g l.
Proof.
  induction l as [|x l IH]; intros Hfg; simpl; [done|].
  rewrite Hfg by (apply elem_of_cons; auto).
  rewrite IH; [done|]. intros y Hy. apply Hfg, elem_of_cons; auto.
Qed.

Lemma append_stmt_acc (acc : list string) (o : option string) :
  append_stmt acc o = acc ++ append_stmt [] o.
Proof.
  unfold append_stmt. destruct o as [s|]; [|by rewrite app_nil_r].
  destruct (truthy_stmt (Some s)); [done | by rewrite app_nil_r].
Qed.

Lemma kept_cons (o : option string) (l : list (option string)) :
  kept (o :: l) = append_stmt [] o ++ kept l.
Proof. done. Qed.

(** ** Mappings *)

Lemma get_None {T} (m : Mapping T) (k : string) :
  get m k = None ↔ k ∉ keys m.
Proof.
  induction m as [|[k' v] m IH]; simpl.
  - split; [intros _; apply not_elem_of_nil | done].
  - rewrite not_elem_of_cons. destruct (decide (k' = k)) as [->|Hne].
    + split; [done | intros [? _]; done].
    + rewrite IH. split; [intros ?; split; congruence | intros [_ ?]; done].
Qed.

Lemma contains_get {T} (m : Mapping T) (k : string) :
  contains m k = bool_decide (get m k ≠ None).
Proof.
  unfold contains. apply bool_decide_ext. rewrite get_None.
  split; [auto | apply dec_stable].
Qed.

(** In a dict every stored pair is what a lookup of its key returns. *)
Lemma get_elem_of {T} (m : Mapping T) (k : string) (v : T) :
  dict_ok m → (k, v) ∈ m → get m k = Some v.
Proof.
  unfold dict_ok, keys. induction m as [|[k' v'] m IH]; simpl.
  - intros _ H. by apply elem_of_nil in H.
  - rewrite NoDup_cons. intros [Hk Hm]. rewrite elem_of_cons.
    intros [[= -> ->] | Hin].
    + by rewrite decide_True.
    + rewrite decide_False; [by apply IH|].
      intros ->. apply Hk. apply (list_elem_of_fmap_2 fst) in Hin. done.
Qed.

(** ** The three diff helpers, by children *)

Lemma keys_lookup_mapM {T A} (f : T → result A) (P : string → Prop)
    `{∀ k, Decision (P k)} (m l : Mapping T) :
  (∀ k v, (k, v) ∈ l → get m k = Some v) →
  mapM (λ id, let* o := getitem m id in f o) (filter P (keys l))
  = mapM f (values (filter (λ kv, P kv.1) l)).
Proof.
  unfold keys, values. induction l as [|[k v] l IH]; intros Hl; [done|].
  assert (Hrest : ∀ k' v', (k', v') ∈ l → get m k' = Some v')
    by (intros ???; apply Hl, elem_of_cons; auto).
  rewrite fmap_cons. cbn [fst]. destruct (decide (P k)) as [Hk|Hk].
  2:{ rewrite filter_cons_False by done.
      rewrite (filter_cons_False (λ kv, P kv.1)) by done. by apply IH. }
  rewrite filter_cons_True by done.
  rewrite (filter_cons_True (λ kv, P kv.1)) by done.
  rewrite fmap_cons. simpl. unfold getitem at 1.
  rewrite (Hl k v) by (apply elem_of_cons; auto). simpl.
  by rewrite IH.
Qed.

Lemma create_diff_only_in {T} (create_stmt : T → result string)
    (source target : Mapping T) :
  dict_ok target →
  Mutator._create_diff create_stmt source target
  = mapM create_stmt (only_in target source).
Proof.
  intros Hok. unfold Mutator._create_diff, only_in.
  exact (keys_lookup_mapM create_stmt (λ id, id ∉ keys source) target target
           (λ k v, get_elem_of target k v Hok)).
Qed.

Lemma drop_diff_only_in {T} (drop_stmt : T → result string)
    (source target : Mapping T) :
  dict_ok source →
  Mutator._drop_diff drop_stmt source target
  = mapM drop_stmt (only_in source target).
Proof.
  intros Hok. unfold Mutator._drop_diff, only_in.
  exact (keys_lookup_mapM drop_stmt (λ id, id ∉ keys target) source source
           (λ k v, get_elem_of source k v Hok)).
Qed.

Lemma deferred_loop_sublist {T} (stmt : T → result (option string))
    (these those l : Mapping T) (acc : list string) :
  (∀ k v, (k, v) ∈ l → get these k = Some v) →
  foldM
    (λ statements id,
       if negb (contains those id) then
         let* o := getitem these id in
         let* statement := stmt o in
         Ok (append_stmt statements statement)
       else Ok statements)
    acc (keys l)
  = let* r := mapM stmt (only_in l those) in Ok (acc ++ kept r).
Proof.
  unfold only_in, keys, values. revert acc.
  induction l as [|[k v] l IH]; intros acc Hl; simpl.
  - by rewrite app_nil_r.
  - assert (Hrest : ∀ k' v', (k', v') ∈ l → get these k' = Some v')
      by (intros ???; apply Hl, elem_of_cons; auto).
    unfold contains at 1. destruct (decide (k ∉ keys those)) as [Hk|Hk].
    + rewrite (filter_cons_True (λ kv, kv.1 ∉ those.*1)) by done.
      rewrite bool_decide_eq_false_2 by done. simpl.
      unfold getitem at 1. rewrite (Hl k v) by (apply elem_of_cons; auto).
      simpl. destruct (stmt v) as [o|e]; simpl; [|done].
      rewrite IH by done.
      destruct (mapM stmt _) as [r|e]; simpl; [|done].
      by rewrite kept_cons, app_assoc, <- append_stmt_acc.
    + rewrite (filter_cons_False (λ kv, kv.1 ∉ those.*1)) by done.
      rewrite bool_decide_eq_true_2 by (by apply dec_stable). simpl.
      by apply IH.
Qed.

Lemma deferred_constraints_only_in {T} (stmt : T → result (option string))
    (these those : Mapping T) (acc : list string) :
  dict_ok these →
  Mutator.deferred_constraints stmt these those acc
  = let* r := mapM stmt (only_in these those) in Ok (acc ++ kept r).
Proof.
  intros Hok. apply deferred_loop_sublist. intros k v. by apply get_elem_of.
Qed.

Lemma mutate_loop_sublist {T} (mutate_fn : T → T → result (option string))
    (source target l : Mapping T) (acc : list string) :
  (∀ k v, (k, v) ∈ l → get source k = Some v) →
  foldM
    (λ statements id,
       if contains target id then
         let* s := getitem source id in
         let* t := getitem target id in
         let* statement := mutate_fn s t in
         Ok (append_stmt statements statement)
       else Ok statements)
    acc (keys l)
  = let* r := mapM (λ p, mutate_fn p.1 p.2) (in_both l target) in
    Ok (acc ++ kept r).
Proof.
  unfold in_both, keys. revert acc.
  induction l as [|[k v] l IH]; intros acc Hl; simpl.
  - by rewrite app_nil_r.
  - assert (Hrest : ∀ k' v', (k', v') ∈ l → get source k' = Some v')
      by (intros ???; apply Hl, elem_of_cons; auto).
    rewrite contains_get. destruct (get target k) as [t|] eqn:Ht.
    + rewrite bool_decide_eq_true_2 by done. simpl.
      unfold getitem at 1 2. rewrite (Hl k v) by (apply elem_of_cons; auto).
      rewrite Ht. simpl. destruct (mutate_fn v t) as [o|e]; simpl; [|done].
      rewrite IH by done.
      destruct (mapM _ _) as [r|e]; simpl; [|done].
      by rewrite kept_cons, app_assoc, <- append_stmt_acc.
    + rewrite bool_decide_eq_false_2 by (intros ?; done). simpl. by apply IH.
Qed.

Lemma mutate_diff_in_both {T} (mutate_fn : T → T → result (option string))
    (source target : Mapping T) :
  dict_ok source →
  Mutator._mutate_diff mutate_fn source target
  = let* r := mapM (λ p, mutate_fn p.1 p.2) (in_both source target) in
    Ok (kept r).
Proof.
  intros Hok. unfold Mutator._mutate_diff.
  rewrite (mutate_loop_sublist mutate_fn source target source [])
    by (intros k v; by apply get_elem_of).
  done.
Qed.

(** ** The loops of [mutate_table_stmt] *)

Lemma create_or_update_columns_steps (d : Dialect)
    (fn : Column → Column → result (option string))
    (source target : Table) (acc : list string) :
  Mutator.create_or_update_columns d fn source target acc
  = let* r := mapM (column_step d fn source) (values (columns target)) in
    Ok (acc ++ concat r).
Proof.
  unfold Mutator.create_or_update_columns. rewrite <- foldM_append.
  apply foldM_ext. intros a c _. unfold column_step.
  destruct (get (columns source) (id (name c))) as [sc|].
  - destruct (fn sc c) as [o|e]; simpl; [|done]. by rewrite append_stmt_acc.
  - by destruct (column_create_stmt d c).
Qed.

Lemma drop_columns_removed (d : Dialect) (source target : Table)
    (acc : list string) :
  Mutator.drop_columns d source target acc
  = let* r := mapM (column_drop_stmt d) (removed_columns source target) in
    Ok (acc ++ r).
Proof.
  unfold Mutator.drop_columns, removed_columns. revert acc.
  induction (values (columns source)) as [|c l IH]; intros acc; simpl.
  - by rewrite app_nil_r.
  - unfold contains at 1.
    destruct (decide (id (name c) ∉ keys (columns target))) as [Hc|Hc].
    + rewrite filter_cons_True by done.
      rewrite bool_decide_eq_false_2 by done. simpl.
      destruct (column_drop_stmt d c) as [s|e]; simpl; [|done].
      rewrite IH. destruct (mapM _ _) as [r|e]; simpl; [|done].
      by rewrite <- app_assoc.
    + rewrite filter_cons_False by done.
      rewrite bool_decide_eq_true_2 by (by apply dec_stable). simpl.
      apply IH.
Qed.

Lemma fold_left_append_if {A} (p : A → bool) (f : A → string) (l : list A)
    (acc : list string) :
  fold_left (λ statements x, if p x then statements ++ [f x] else statements)
            l acc
  = acc ++ map f (List.filter p l).
Proof.
  revert acc. induction l as [|x l IH]; intros acc; simpl.
  - by rewrite app_nil_r.
  - rewrite IH. destruct (p x); simpl; [|done]. by rewrite <- app_assoc.
Qed.

Lemma fold_left_skip {A B} (l : list A) (acc : B) :
  fold_left (λ statements _, statements) l acc = acc.
Proof. revert acc. induction l; simpl; auto. Qed.

Lemma truthy_list_true {A} (l : list A) : truthy_list l = true ↔ l ≠ [].
Proof. destruct l; simpl; split; try done. Qed.

Lemma truthy_list_false {A} (l : list A) : truthy_list l = false ↔ l = [].
Proof. destruct l; simpl; split; try done. Qed.

(** The constraint fragments are appended to the column fragments. *)
Lemma mutate_constraints_acc (d : Dialect) (source target : Table)
    (acc : list string) :
  Mutator.mutate_constraints d source target acc
  = acc ++ Mutator.mutate_constraints d source target [].
Proof.
  unfold Mutator.mutate_constraints.
  repeat case_match; rewrite ?fold_left_append_if, ?fold_left_skip, ?app_nil_r;
    done.
Qed.

(** The fragments of a table: the target columns in order, then the drops,
    then the constraints. *)
Lemma mutate_table_fragments_Ok (d : Dialect)
    (fn : Column → Column → result (option string))
    (source target : Table) (fragments : list string) :
  Mutator.mutate_table_fragments d fn source target = Ok fragments →
  ∃ per_column drops,
    mapM (column_step d fn source) (values (columns target)) = Ok per_column ∧
    mapM (column_drop_stmt d) (removed_columns source target) = Ok drops ∧
    fragments = concat per_column ++ drops
                ++ Mutator.mutate_constraints d source target [].
Proof.
  unfold Mutator.mutate_table_fragments. intros H.
  apply rbind_Ok_inv in H as ([] & _ & H).
  apply rbind_Ok_inv in H as (st1 & H1 & H).
  apply rbind_Ok_inv in H as (st2 & H2 & [= <-]).
  rewrite create_or_update_columns_steps in H1.
  destruct (mapM (column_step d fn source) _) as [pc|e]; simpl in H1;
    [|by destruct (is_ColumnFormationError e)].
  injection H1 as <-.
  rewrite drop_columns_removed in H2.
  destruct (mapM (column_drop_stmt d) _) as [dr|e]; simpl in H2;
    [|by destruct (is_ColumnFormationError e)].
  injection H2 as <-.
  exists pc, dr. split; [done|]. split; [done|].
  rewrite mutate_constraints_acc. simpl. by rewrite app_assoc.
Qed.

(** ** Enumerations are additive-only *)

Lemma check_identity_same (d : Dialect) {S T} `{SupportsName S} `{SupportsName T}
    (source : S) (target : T) :
  name source = name target → Mutator.check_identity d source target = Ok tt.
Proof. intros Hn. unfold Mutator.check_identity. by rewrite decide_False by auto. Qed.

Lemma check_identity_differ (d : Dialect) {S T} `{SupportsName S} `{SupportsName T}
    (source : S) (target : T) :
  name source ≠ name target →
  Mutator.check_identity d source target
  = Raise (FormationError ("object mismatch: " +:+ str_id d (name source)
                           +:+ " != " +:+ str_id d (name target))).
Proof. intros Hn. unfold Mutator.check_identity. by rewrite decide_True. Qed.

Lemma filter_nil_iff {A} (P : A → Prop) `{∀ x, Decision (P x)} (l : list A) :
  filter P l = [] ↔ ∀ x, x ∈ l → ¬ P x.
Proof.
  split.
  - intros Hf x Hx HP. assert (x ∈ filter P l) as Hin by (by apply list_elem_of_filter).
    rewrite Hf in Hin. by apply elem_of_nil in Hin.
  - intros Hall. apply elem_of_nil_inv. intros x [HP Hx]%list_elem_of_filter.
    by apply (Hall x).
Qed.

(** C1. For two enum types of the same name: if a value of the source is
    missing from the target, [mutate_enum_stmt] raises a [FormationError] and
    returns no statement; otherwise, if the target has values the source
    lacks, it returns one [ALTER TYPE] statement with one [ADD VALUE] clause
    for each of them, in target order; and with nothing to add it returns
    [None]. *)
Theorem mutate_enum_stmt_additive_only (d : Dialect) (source target : EnumType) :
  name source = name target →
  let added := filter (λ v, v ∉ enum_values source) (enum_values target) in
  ((∃ v, v ∈ enum_values source ∧ v ∉ enum_values target) →
     ∃ msg, Mutator.mutate_enum_stmt d source target = Raise (FormationError msg))
  ∧ ((∀ v, v ∈ enum_values source → v ∈ enum_values target) →
     added ≠ [] →
     Mutator.mutate_enum_stmt d source target
     = Ok (Some ("ALTER TYPE " +:+ str_id d (name source) +:+ NL
                 +:+ join ("," +:+ NL)
                       (map (λ v, "ADD VALUE " +:+ constant d v) added)
                 +:+ ";")))
  ∧ ((∀ v, v ∈ enum_values source → v ∈ enum_values target) →
     added = [] →
     Mutator.mutate_enum_stmt d source target = Ok None).
Proof.
  intros Hn added. unfold Mutator.mutate_enum_stmt.
  rewrite (check_identity_same d source target Hn). simpl.
  split; [|split].
  - intros (v & Hs & Ht).
    destruct (filter (λ value, value ∉ enum_values target) (enum_values source))
      as [|r rs] eqn:Hr.
    + exfalso. by apply (proj1 (filter_nil_iff (λ x, x ∉ enum_values target) _) Hr v).
    + simpl. eauto.
  - intros Hsub Hadd.
    assert (filter (λ value, value ∉ enum_values target) (enum_values source) = [])
      as -> by (apply (filter_nil_iff (λ x, x ∉ enum_values target));
                 intros v Hv Hnot; by apply Hnot, Hsub).
    simpl. fold added. by apply truthy_list_true in Hadd as ->.
  - intros Hsub Hadd.
    assert (filter (λ value, value ∉ enum_values target) (enum_values source) = [])
      as -> by (apply (filter_nil_iff (λ x, x ∉ enum_values target));
                 intros v Hv Hnot; by apply Hnot, Hsub).
    simpl. fold added. by apply truthy_list_false in Hadd as ->.
Qed.

Lemma mutate_enum_stmt_additive_only_witness :
  (∃ msg, Mutator.mutate_enum_stmt Generic.dialect mood_abc mood_ab
          = Raise (FormationError msg))
  ∧ Mutator.mutate_enum_stmt Generic.dialect mood_ab mood_abc
    = Ok (Some ("ALTER TYPE " +:+ Generic.show_id (LocalId "mood") +:+ NL
                +:+ "ADD VALUE 'c';"))
  ∧ Mutator.mutate_enum_stmt Generic.dialect mood_ab mood_ab = Ok None.
Proof.
  split; [|split].
  - apply (mutate_enum_stmt_additive_only Generic.dialect mood_abc mood_ab eq_refl).
    exists "c". split; by_compute.
  - apply (mutate_enum_stmt_additive_only Generic.dialect mood_ab mood_abc eq_refl).
    + intros v Hv. change (v ∈ enum_values mood_ab ++ ["c"]).
      apply elem_of_app. by left.
    + vm_compute. discriminate.
  - apply (mutate_enum_stmt_additive_only Generic.dialect mood_ab mood_ab eq_refl).
    + auto.
    + reflexivity.
Defined.

(** ** Identity law *)

Lemma foldM_noop {A B} (f : A → B → result A) (acc : A) (l : list B) :
  (∀ a x, x ∈ l → f a x = Ok a) → foldM f acc l = Ok acc.
Proof.
  induction l as [|x l IH]; intros Hf; simpl; [done|].
  rewrite Hf by (apply elem_of_cons; auto). simpl.
  apply IH. intros a y Hy. apply Hf, elem_of_cons; auto.
Qed.

Lemma fold_left_noop {A B} (f : A → B → A) (acc : A) (l : list B) :
  (∀ a x, x ∈ l → f a x = a) → fold_left f l acc = acc.
Proof.
  revert acc. induction l as [|x l IH]; intros acc Hf; simpl; [done|].
  rewrite Hf by (apply elem_of_cons; auto).
  apply IH. intros a y Hy. apply Hf, elem_of_cons; auto.
Qed.

Lemma filter_none {A} (P : A → Prop) `{∀ x, Decision (P x)} (l : list A) :
  (∀ x, x ∈ l → ¬ P x) → filter P l = [].
Proof. apply filter_nil_iff. Qed.

Lemma get_is_Some {T} (m : Mapping T) (k : string) :
  k ∈ keys m → ∃ v, get m k = Some v ∧ v ∈ values m.
Proof.
  unfold keys, values. induction m as [|[k' v] m IH]; simpl.
  - intros H. by apply elem_of_nil in H.
  - intros H. destruct (decide (k' = k)) as [->|Hne].
    + exists v. split; [done | apply elem_of_cons; auto].
    + apply elem_of_cons in H as [->|H]; [done|].
      destruct (IH H) as (v' & Hg & Hv). exists v'.
      split; [done | apply elem_of_cons; auto].
Qed.

Lemma create_diff_same {T} (create_stmt : T → result string) (m : Mapping T) :
  Mutator._create_diff create_stmt m m = Ok [].
Proof.
  unfold Mutator._create_diff.
  by rewrite (filter_none (λ id, id ∉ keys m)) by (intros x Hx Hn; done).
Qed.

Lemma drop_diff_same {T} (drop_stmt : T → result string) (m : Mapping T) :
  Mutator._drop_diff drop_stmt m m = Ok [].
Proof. apply create_diff_same. Qed.

Lemma deferred_constraints_same {T} (stmt : T → result (option string))
    (m : Mapping T) (acc : list string) :
  Mutator.deferred_constraints stmt m m acc = Ok acc.
Proof.
  unfold Mutator.deferred_constraints. apply foldM_noop. intros a k Hk.
  unfold contains. by rewrite bool_decide_eq_true_2.
Qed.

Lemma mutate_diff_same {T} (mutate_fn : T → T → result (option string))
    (m : Mapping T) :
  (∀ o, o ∈ values m → mutate_fn o o = Ok None) →
  Mutator._mutate_diff mutate_fn m m = Ok [].
Proof.
  intros Hf. unfold Mutator._mutate_diff. apply foldM_noop. intros a k Hk.
  unfold contains. rewrite bool_decide_eq_true_2 by done.
  destruct (get_is_Some m k Hk) as (o & Hg & Ho).
  unfold getitem. rewrite Hg. simpl. by rewrite Hf.
Qed.

Lemma mutate_enum_stmt_same (d : Dialect) (e : EnumType) :
  Mutator.mutate_enum_stmt d e e = Ok None.
Proof.
  unfold Mutator.mutate_enum_stmt.
  rewrite (check_identity_same d e e eq_refl). simpl.
  by rewrite (filter_none (λ v, v ∉ enum_values e)) by (intros x Hx Hn; done).
Qed.

(** The second loop of [mutate_struct_stmt] never appends: every target
    member is among the target's members. *)
Lemma struct_add_loop_noop (d : Dialect) (target : StructType)
    (acc : list string) :
  fold_left
    (λ statements target_member,
       if decide (target_member ∉ values (struct_members target))
       then statements ++ ["ADD ATTRIBUTE " +:+ str_member d target_member]
       else statements)
    (values (struct_members target)) acc
  = acc.
Proof.
  apply fold_left_noop. intros a m Hm. by rewrite decide_False by auto.
Qed.

Lemma mutate_struct_stmt_same (d : Dialect) (s : StructType) :
  Mutator.mutate_struct_stmt d s s = Ok None.
Proof.
  unfold Mutator.mutate_struct_stmt.
  rewrite (check_identity_same d s s eq_refl). simpl.
  rewrite struct_add_loop_noop.
  rewrite fold_left_noop; [done|].
  intros a m Hm. by rewrite decide_False by auto.
Qed.

Lemma mutate_column_stmt_same (d : Dialect) (c : Column) :
  Mutator.mutate_column_stmt d c c = Ok None.
Proof. unfold Mutator.mutate_column_stmt. by rewrite decide_True. Qed.

Lemma oracle_mutate_column_stmt_same (d : Dialect) (default_expr : Column → string)
    (c : Column) :
  OracleMutator.mutate_column_stmt d default_expr c c = Ok None.
Proof.
  unfold OracleMutator.mutate_column_stmt, OracleMutator.mutate_column_changes.
  by rewrite !decide_False by auto.
Qed.

Lemma mapM_const {A B} (f : A → result B) (b : B) (l : list A) :
  (∀ x, x ∈ l → f x = Ok b) → mapM f l = Ok (map (λ _, b) l).
Proof.
  induction l as [|x l IH]; intros Hf; simpl; [done|].
  rewrite Hf by (apply elem_of_cons; auto). simpl.
  rewrite IH; [done|]. intros y Hy. apply Hf, elem_of_cons; auto.
Qed.

Lemma concat_map_nil {A B} (l : list A) :
  concat (map (λ _, @nil B) l) = [].
Proof. induction l; simpl; auto. Qed.

Lemma table_ok_get (t : Table) (c : Column) :
  table_ok t → c ∈ values (columns t) →
  get (columns t) (id (name c)) = Some c ∧ id (name c) ∈ keys (columns t).
Proof.
  intros [Hdict Hkey] Hc. unfold values in Hc.
  apply list_elem_of_fmap in Hc as ([k c'] & -> & Hin). simpl.
  unfold keyed_by_id in Hkey. rewrite Forall_forall in Hkey.
  pose proof (Hkey _ Hin) as Hk. simpl in Hk. subst k.
  split; [by apply get_elem_of|].
  unfold keys. by apply (list_elem_of_fmap_2 fst) in Hin.
Qed.

Lemma mutate_constraints_same (d : Dialect) (t : Table) :
  Mutator.mutate_constraints d t t [] = [].
Proof.
  unfold Mutator.mutate_constraints.
  destruct (truthy_list (constraints t)); simpl; [|done].
  apply fold_left_skip.
Qed.

Section IdentityLaw.
Variable d : Dialect.
Variable fn : Column → Column → result (option string).
Hypothesis fn_same : ∀ c, fn c c = Ok None.

Lemma mutate_table_stmt_same (t : Table) :
  table_ok t → Mutator.mutate_table_stmt d fn t t = Ok None.
Proof.
  intros Hok. unfold Mutator.mutate_table_stmt, Mutator.mutate_table_fragments.
  rewrite (check_identity_same d t t eq_refl). simpl.
  rewrite create_or_update_columns_steps.
  rewrite (mapM_const _ []).
  2:{ intros c Hc. unfold column_step.
      destruct (table_ok_get t c Hok Hc) as [-> _]. by rewrite fn_same. }
  simpl. rewrite concat_map_nil. simpl.
  rewrite drop_columns_removed. unfold removed_columns.
  rewrite (filter_none (λ c, id (name c) ∉ keys (columns t))).
  2:{ intros c Hc Hn. by destruct (table_ok_get t c Hok Hc) as [_ ?]. }
  simpl. by rewrite mutate_constraints_same.
Qed.

Lemma mutate_namespace_stmt_same (n : Namespace) :
  namespace_ok n → Mutator.mutate_namespace_stmt d fn n n = Ok None.
Proof.
  intros Hok.
  unfold Mutator.mutate_namespace_stmt, Mutator.mutate_namespace_statements.
  rewrite (check_identity_same d n n eq_refl). simpl.
  rewrite !create_diff_same. simpl.
  rewrite deferred_constraints_same. simpl.
  rewrite (mutate_diff_same (Mutator.mutate_enum_stmt d))
    by (intros; apply mutate_enum_stmt_same). simpl.
  rewrite (mutate_diff_same (Mutator.mutate_struct_stmt d))
    by (intros; apply mutate_struct_stmt_same). simpl.
  rewrite (mutate_diff_same (Mutator.mutate_table_stmt d fn)).
  2:{ intros t Ht. apply mutate_table_stmt_same.
      unfold namespace_ok in Hok. rewrite Forall_forall in Hok. by apply Hok. }
  simpl. by rewrite !drop_diff_same.
Qed.

Lemma mutate_catalog_stmt_same (c : Catalog) :
  catalog_ok c → Mutator.mutate_catalog_stmt d fn c c = Ok None.
Proof.
  intros Hok.
  unfold Mutator.mutate_catalog_stmt, Mutator.mutate_catalog_statements.
  rewrite create_diff_same. simpl.
  rewrite deferred_constraints_same. simpl.
  rewrite (mutate_diff_same (Mutator.mutate_namespace_stmt d fn)).
  2:{ intros n Hn. apply mutate_namespace_stmt_same.
      unfold catalog_ok in Hok. rewrite Forall_forall in Hok. by apply Hok. }
  simpl. rewrite deferred_constraints_same. simpl.
  by rewrite drop_diff_same.
Qed.
End IdentityLaw.

(** C2. Identity law: diffing a tree against itself returns [None] (and
    not an empty string) at every level: catalog, namespace, table, column,
    enum and struct.  A tree stores each column of a table under the
    column's own name, once. *)
Theorem mutate_same_is_None (d : Dialect) :
  (∀ c, catalog_ok c → BaseMutator.mutate_catalog_stmt d c c = Ok None)
  ∧ (∀ n, namespace_ok n → BaseMutator.mutate_namespace_stmt d n n = Ok None)
  ∧ (∀ t, table_ok t → BaseMutator.mutate_table_stmt d t t = Ok None)
  ∧ (∀ c, Mutator.mutate_column_stmt d c c = Ok None)
  ∧ (∀ e, Mutator.mutate_enum_stmt d e e = Ok None)
  ∧ (∀ s, Mutator.mutate_struct_stmt d s s = Ok None).
Proof.
  repeat split.
  - intros c. apply mutate_catalog_stmt_same, mutate_column_stmt_same.
  - intros n. apply mutate_namespace_stmt_same, mutate_column_stmt_same.
  - intros t. apply mutate_table_stmt_same, mutate_column_stmt_same.
  - apply mutate_column_stmt_same.
  - apply mutate_enum_stmt_same.
  - apply mutate_struct_stmt_same.
Qed.

Lemma mutate_same_is_None_witness :
  BaseMutator.mutate_catalog_stmt Generic.dialect catalog_source catalog_source
  = Ok None
  ∧ BaseMutator.mutate_namespace_stmt Generic.dialect app_source app_source
    = Ok None
  ∧ BaseMutator.mutate_table_stmt Generic.dialect users_target users_target
    = Ok None.
Proof.
  pose proof (mutate_same_is_None Generic.dialect) as (Hc & Hn & Htab & _).
  split; [|split].
  - apply Hc. ok_by_compute.
  - apply Hn. ok_by_compute.
  - apply Htab. ok_by_compute.
Defined.

(** ** Statement order *)

Lemma mutate_catalog_statements_Ok (d : Dialect)
    (fn : Column → Column → result (option string))
    (source target : Catalog) (statements : list string) :
  dict_ok (namespaces source) → dict_ok (namespaces target) →
  Mutator.mutate_catalog_statements d fn source target = Ok statements →
  catalog_phases d fn source target statements.
Proof.
  intros Hs Ht H. unfold Mutator.mutate_catalog_statements in H.
  split_run H.
  rewrite create_diff_only_in in Hr by done.
  rewrite deferred_constraints_only_in in Hr0 by done.
  rewrite mutate_diff_in_both in Hr1 by done.
  rewrite deferred_constraints_only_in in Hr2 by done.
  rewrite drop_diff_only_in in Hr3 by done.
  split_run Hr0. split_run Hr1. split_run Hr2.
  injection H as <-. injection Hr0 as <-. injection Hr1 as <-.
  injection Hr2 as <-.
  exists r, r4, r5, r6, r3. repeat (split; [done|]).
  simpl. by rewrite <- !app_assoc.
Qed.

Lemma mutate_namespace_statements_Ok (d : Dialect)
    (fn : Column → Column → result (option string))
    (source target : Namespace) (statements : list string) :
  namespace_dicts_ok source → namespace_dicts_ok target →
  Mutator.mutate_namespace_statements d fn source target = Ok statements →
  namespace_phases d fn source target statements.
Proof.
  intros (Hse & Hss & Hst) (Hte & Hts & Htt) H.
  unfold Mutator.mutate_namespace_statements in H.
  split_run H.
  rewrite create_diff_only_in in Hr0 by done.
  rewrite create_diff_only_in in Hr1 by done.
  rewrite create_diff_only_in in Hr2 by done.
  rewrite deferred_constraints_only_in in Hr3 by done.
  rewrite mutate_diff_in_both in Hr4 by done.
  rewrite mutate_diff_in_both in Hr5 by done.
  rewrite mutate_diff_in_both in Hr6 by done.
  rewrite drop_diff_only_in in Hr7 by done.
  rewrite drop_diff_only_in in Hr8 by done.
  rewrite drop_diff_only_in in Hr9 by done.
  split_run Hr3. split_run Hr4. split_run Hr5. split_run Hr6.
  injection H as <-. injection Hr3 as <-. injection Hr4 as <-.
  injection Hr5 as <-. injection Hr6 as <-.
  exists r0, r1, r2, r10, r11, r12, r13, r7, r8, r9.
  repeat (split; [done|]).
  simpl. by rewrite <- !app_assoc.
Qed.

(** The spec's scenario, [users(id, name)] to [users(id, name NOT NULL,
    email)]: the alter clause of [name] comes before the create fragment of
    [email]. *)
Example users_fragments :
  BaseMutator.mutate_table_fragments Generic.dialect users_source users_target
  = Ok [ "ALTER COLUMN " +:+ Generic.show_id (LocalId "name") +:+ " SET NOT NULL";
         "ADD COLUMN " +:+ Generic.show_id (LocalId "email") +:+ " text" ].
Proof. vm_compute. reflexivity. Qed.

(** C3, as stated, fails for the columns of a table: a mutation fragment
    precedes a create fragment. *)
Lemma table_creates_do_not_precede_mutations :
  ¬ table_creates_then_mutations Generic.dialect
      (Mutator.mutate_column_stmt Generic.dialect) users_source users_target.
Proof.
  intros H.
  destruct (H _ [ "ADD COLUMN " +:+ Generic.show_id (LocalId "email") +:+ " text" ]
              [ None;
                Some ("ALTER COLUMN " +:+ Generic.show_id (LocalId "name")
                      +:+ " SET NOT NULL") ]
              users_fragments) as [rest Hrest].
  - vm_compute. reflexivity.
  - vm_compute. reflexivity.
  - vm_compute in Hrest. discriminate Hrest.
Qed.

(** C3 (amended). At the catalog and namespace levels the statements come
    in phases: creates of the target-only children (in a namespace: enums,
    structs, tables), then the deferred add-constraints of the new children,
    then the mutations of the children present in both trees (enums,
    structs, tables), then (catalog only) the drop-constraints of the
    source-only namespaces, then the drops of the source-only children (in a
    namespace: tables, structs, enums).  For the columns of a table the
    fragments follow the target columns in order, a create fragment for a new
    column and an alter clause for a changed one as they come, then the drops
    of the source-only columns, then the constraint fragments. *)
Theorem statements_follow_phases (d : Dialect)
    (fn : Column → Column → result (option string)) :
  (∀ source target stmt,
     dict_ok (namespaces source) → dict_ok (namespaces target) →
     Mutator.mutate_catalog_stmt d fn source target = Ok (Some stmt) →
     ∃ statements,
       catalog_phases d fn source target statements
       ∧ stmt = join NL statements)
  ∧ (∀ source target stmt,
       namespace_dicts_ok source → namespace_dicts_ok target →
       Mutator.mutate_namespace_stmt d fn source target = Ok (Some stmt) →
       ∃ statements,
         namespace_phases d fn source target statements
         ∧ stmt = join NL statements)
  ∧ (∀ source target stmt,
       Mutator.mutate_table_stmt d fn source target = Ok (Some stmt) →
       ∃ fragments,
         table_phases d fn source target fragments
         ∧ stmt = alter_table_stmt d source fragments).
Proof.
  split; [|split].
  - intros source target stmt Hs Ht H. unfold Mutator.mutate_catalog_stmt in H.
    split_run H. exists r. split.
    + by apply mutate_catalog_statements_Ok.
    + destruct (truthy_list r); congruence.
  - intros source target stmt Hs Ht H. unfold Mutator.mutate_namespace_stmt in H.
    split_run H. exists r. split.
    + by apply mutate_namespace_statements_Ok.
    + destruct (truthy_list r); congruence.
  - intros source target stmt H. unfold Mutator.mutate_table_stmt in H.
    split_run H. exists r. split.
    + by apply mutate_table_fragments_Ok.
    + destruct (truthy_list r); congruence.
Qed.

Lemma statements_follow_phases_witness :
  (∃ stmt statements,
     BaseMutator.mutate_catalog_stmt Generic.dialect catalog_source catalog_target
     = Ok (Some stmt)
     ∧ catalog_phases Generic.dialect (Mutator.mutate_column_stmt Generic.dialect)
         catalog_source catalog_target statements
     ∧ stmt = join NL statements)
  ∧ (∃ stmt statements,
       BaseMutator.mutate_namespace_stmt Generic.dialect app_source app_target
       = Ok (Some stmt)
       ∧ namespace_phases Generic.dialect (Mutator.mutate_column_stmt Generic.dialect)
           app_source app_target statements
       ∧ stmt = join NL statements)
  ∧ (∃ stmt fragments,
       BaseMutator.mutate_table_stmt Generic.dialect users_source users_target
       = Ok (Some stmt)
       ∧ table_phases Generic.dialect (Mutator.mutate_column_stmt Generic.dialect)
           users_source users_target fragments
       ∧ stmt = alter_table_stmt Generic.dialect users_source fragments).
Proof.
  pose proof (statements_follow_phases Generic.dialect
                (Mutator.mutate_column_stmt Generic.dialect)) as (Hc & Hn & Ht).
  split; [|split].
  - destruct (BaseMutator.mutate_catalog_stmt Generic.dialect
                catalog_source catalog_target) as [[stmt|]|e] eqn:Hrun;
      [|vm_compute in Hrun; discriminate Hrun..].
    destruct (Hc catalog_source catalog_target stmt) as (statements & Hp & Hj);
      [ok_by_compute | ok_by_compute | exact Hrun |].
    exists stmt, statements. auto.
  - destruct (BaseMutator.mutate_namespace_stmt Generic.dialect
                app_source app_target) as [[stmt|]|e] eqn:Hrun;
      [|vm_compute in Hrun; discriminate Hrun..].
    destruct (Hn app_source app_target stmt) as (statements & Hp & Hj);
      [ok_by_compute | ok_by_compute | exact Hrun |].
    exists stmt, statements. auto.
  - destruct (BaseMutator.mutate_table_stmt Generic.dialect
                users_source users_target) as [[stmt|]|e] eqn:Hrun;
      [|vm_compute in Hrun; discriminate Hrun..].
    destruct (Ht users_source users_target stmt) as (fragments & Hp & Hj);
      [exact Hrun |].
    exists stmt, fragments. auto.
Defined.

(** ** Struct types *)

Lemma fold_left_append_decide {A} (P : A → Prop) `{∀ x, Decision (P x)}
    (f : A → string) (l : list A) (acc : list string) :
  fold_left (λ statements x,
               if decide (P x) then statements ++ [f x] else statements) l acc
  = acc ++ map f (filter P l).
Proof.
  revert acc. induction l as [|x l IH]; intros acc; simpl.
  - by rewrite app_nil_r.
  - rewrite IH. destruct (decide (P x)).
    + rewrite filter_cons_True by done. simpl. by rewrite <- app_assoc.
    + by rewrite filter_cons_False by done.
Qed.

(** Whatever the two structs are, only [DROP ATTRIBUTE] fragments are
    produced: the second loop adds nothing. *)
Lemma mutate_struct_stmt_drops_only (d : Dialect) (source target : StructType) :
  name source = name target →
  let drops :=
    map (λ m, "DROP ATTRIBUTE " +:+ str_id d (name m))
        (filter (λ m, m ∉ values (struct_members target))
                (values (struct_members source))) in
  Mutator.mutate_struct_stmt d source target
  = (if truthy_list drops
     then Ok (Some ("ALTER TYPE " +:+ str_id d (name source) +:+ NL
                    +:+ join ("," +:+ NL) drops +:+ ";" +:+ NL))
     else Ok None).
Proof.
  intros Hn drops. unfold Mutator.mutate_struct_stmt.
  rewrite (check_identity_same d source target Hn). simpl.
  rewrite struct_add_loop_noop.
  rewrite (fold_left_append_decide (λ m, m ∉ values (struct_members target))).
  simpl. fold drops. by destruct (truthy_list drops).
Qed.

(** C4. The code against the claim: the target struct [point(x, y)] has the
    member [y] that the source [point(x)] lacks, and [mutate_struct_stmt]
    returns [None] where one [ADD ATTRIBUTE] fragment is due; with a member
    dropped and another added, only the [DROP ATTRIBUTE] fragment appears. *)
Theorem mutate_struct_stmt_misses_added_member :
  member_y ∈ values (struct_members point_xy)
  ∧ (member_y ∉ values (struct_members point_x))
  ∧ Mutator.mutate_struct_stmt Generic.dialect point_x point_xy = Ok None
  ∧ Mutator.mutate_struct_stmt Generic.dialect point_xy point_xz
    = Ok (Some ("ALTER TYPE " +:+ Generic.show_id (LocalId "point") +:+ NL
                +:+ "DROP ATTRIBUTE " +:+ Generic.show_id (LocalId "y")
                +:+ ";" +:+ NL)).
Proof.
  split; [by_compute|]. split; [by_compute|].
  split; vm_compute; reflexivity.
Qed.

(** ** Identity check *)

(** [mutate_column_stmt] has no identity check and never raises. *)
Lemma mutate_column_stmt_returns (d : Dialect) (s t : Column) :
  ∃ r, Mutator.mutate_column_stmt d s t = Ok r.
Proof.
  unfold Mutator.mutate_column_stmt.
  destruct (decide (s = t)); [eauto|].
  destruct (truthy_list _); eauto.
Qed.

(** C5, as stated, fails for columns: two columns of different names are
    diffed and a result is returned. *)
Lemma mutate_column_stmt_ignores_names :
  name col_id ≠ name col_email
  ∧ Mutator.mutate_column_stmt Generic.dialect col_id col_email
    = Ok (Some (join ("," +:+ NL)
                  [ alter_column Generic.dialect col_id "SET DATA TYPE text";
                    alter_column Generic.dialect col_id "DROP NOT NULL" ])).
Proof. split; [discriminate | vm_compute; reflexivity]. Qed.

(** C5 (amended). Before diffing a matched pair of enum types, struct
    types, tables or namespaces the mutator raises a [FormationError] when
    the names of the two objects differ, and returns no diff result for such
    a pair. *)
Theorem name_mismatch_raises (d : Dialect)
    (fn : Column → Column → result (option string)) :
  let mismatch (a b : Identifier) :=
    FormationError ("object mismatch: " +:+ str_id d a +:+ " != " +:+ str_id d b) in
  (∀ s t : EnumType, name s ≠ name t →
     Mutator.mutate_enum_stmt d s t = Raise (mismatch (name s) (name t)))
  ∧ (∀ s t : StructType, name s ≠ name t →
       Mutator.mutate_struct_stmt d s t = Raise (mismatch (name s) (name t)))
  ∧ (∀ s t : Table, name s ≠ name t →
       Mutator.mutate_table_stmt d fn s t = Raise (mismatch (name s) (name t)))
  ∧ (∀ s t : Namespace, name s ≠ name t →
       Mutator.mutate_namespace_stmt d fn s t = Raise (mismatch (name s) (name t))).
Proof.
  intros mismatch. repeat split.
  - intros s t Hn. unfold Mutator.mutate_enum_stmt.
    by rewrite (check_identity_differ d s t Hn).
  - intros s t Hn. unfold Mutator.mutate_struct_stmt.
    by rewrite (check_identity_differ d s t Hn).
  - intros s t Hn.
    unfold Mutator.mutate_table_stmt, Mutator.mutate_table_fragments.
    by rewrite (check_identity_differ d s t Hn).
  - intros s t Hn.
    unfold Mutator.mutate_namespace_stmt, Mutator.mutate_namespace_statements.
    by rewrite (check_identity_differ d s t Hn).
Qed.

Lemma name_mismatch_raises_witness :
  (∃ msg, Mutator.mutate_enum_stmt Generic.dialect mood_ab colour
          = Raise (FormationError msg))
  ∧ (∃ msg, Mutator.mutate_struct_stmt Generic.dialect point_x shape
            = Raise (FormationError msg))
  ∧ (∃ msg, BaseMutator.mutate_table_stmt Generic.dialect users_source orders_plain
            = Raise (FormationError msg))
  ∧ (∃ msg, BaseMutator.mutate_namespace_stmt Generic.dialect app_source audit
            = Raise (FormationError msg)).
Proof.
  pose proof (name_mismatch_raises Generic.dialect
                (Mutator.mutate_column_stmt Generic.dialect))
    as (He & Hs & Ht & Hn).
  split; [|split; [|split]]; eexists.
  - apply He. discriminate.
  - apply Hs. discriminate.
  - apply Ht. discriminate.
  - apply Hn. discriminate.
Defined.

(** ** Columns *)

Lemma mutate_column_fragments_by_attribute (d : Dialect) (s t : Column) :
  Mutator.mutate_column_fragments d s t = attribute_fragments d s t.
Proof.
  unfold Mutator.mutate_column_fragments, attribute_fragments, changed,
    nullability_fragment, default_fragment, identity_fragment, type_fragment.
  destruct (decide (data_type s ≠ data_type t));
    destruct (nullable s), (nullable t), (identity s), (identity t),
      (default s) as [ds|], (default t) as [dt|];
    simpl; repeat case_decide; simpl; try done; try congruence.
Qed.

Lemma changed_same {A} `{EqDecision A} (a b : A) (f : string) :
  a = b → changed a b f = [].
Proof. intros ->. unfold changed. by rewrite decide_False by auto. Qed.

Lemma changed_differ {A} `{EqDecision A} (a b : A) (f : string) :
  a ≠ b → changed a b f = [f].
Proof. intros Hne. unfold changed. by rewrite decide_True. Qed.

Lemma attribute_fragments_nil (d : Dialect) (s t : Column) :
  attribute_fragments d s t = []
  ↔ same_type s t ∧ same_nullability s t ∧ same_default s t ∧ same_identity s t.
Proof.
  unfold attribute_fragments, changed, same_type, same_nullability,
    same_default, same_identity.
  repeat case_decide; simpl; split; try done; try tauto;
    intros; repeat split; by apply dec_stable.
Qed.

Lemma append_cons (x : ascii) (a b : string) :
  String x a +:+ b = String x (a +:+ b).
Proof. reflexivity. Qed.

Lemma append_assoc (a b c : string) : (a +:+ b) +:+ c = a +:+ (b +:+ c).
Proof.
  induction a as [|x a IH]; [done|]. rewrite !append_cons. by f_equal.
Qed.

Lemma append_empty_r (a : string) : a +:+ EmptyString = a.
Proof. induction a as [|x a IH]; [done|]. rewrite append_cons. by f_equal. Qed.

Lemma join_cons_prefix (sep x : string) (l : list string) :
  ∃ rest, join sep (x :: l) = x +:+ rest.
Proof.
  unfold join. simpl. destruct l as [|y l].
  - exists EmptyString. by rewrite append_empty_r.
  - eauto.
Qed.

(** C6, as stated, fails: two columns that differ in the description only
    are different columns, and [mutate_column_stmt] returns [None]. *)
Lemma description_change_yields_nothing :
  col_name ≠ col_name_described
  ∧ description col_name ≠ description col_name_described
  ∧ Mutator.mutate_column_stmt Generic.dialect col_name col_name_described
    = Ok None.
Proof. split; [discriminate|]. split; [discriminate | vm_compute; reflexivity]. Qed.

(** C6 (amended). Two columns are equal exactly when name, data type,
    nullability, default, identity and description all match.
    [mutate_column_stmt] returns [None] when data type, nullability, default
    and identity match, whatever the names and descriptions; when one of
    these four differs it returns a non-empty result that starts with
    [ALTER COLUMN]. *)
Theorem mutate_column_stmt_compares_four (d : Dialect) (s t : Column) :
  (s = t ↔ name s = name t ∧ data_type s = data_type t
           ∧ nullable s = nullable t ∧ default s = default t
           ∧ identity s = identity t ∧ description s = description t)
  ∧ (same_type s t ∧ same_nullability s t ∧ same_default s t ∧ same_identity s t →
     Mutator.mutate_column_stmt d s t = Ok None)
  ∧ (¬ (same_type s t ∧ same_nullability s t ∧ same_default s t ∧ same_identity s t) →
     ∃ rest, Mutator.mutate_column_stmt d s t
             = Ok (Some ("ALTER COLUMN " +:+ rest))).
Proof.
  split; [|split].
  - split; [by intros -> |].
    destruct s, t; simpl. unfold name, Column_name. simpl.
    intros (-> & -> & -> & -> & -> & ->). done.
  - intros Hsame. unfold Mutator.mutate_column_stmt.
    destruct (decide (s = t)); [done|].
    rewrite mutate_column_fragments_by_attribute.
    by rewrite (proj2 (attribute_fragments_nil d s t) Hsame).
  - intros Hdiff. unfold Mutator.mutate_column_stmt.
    destruct (decide (s = t)) as [->|_].
    { exfalso. apply Hdiff. by repeat split. }
    rewrite mutate_column_fragments_by_attribute.
    destruct (attribute_fragments d s t) as [|f fs] eqn:Hf.
    { exfalso. exact (Hdiff (proj1 (attribute_fragments_nil d s t) Hf)). }
    simpl truthy_list. cbv iota.
    rewrite map_cons.
    destruct (join_cons_prefix ("," +:+ NL)
                ("ALTER COLUMN " +:+ str_id d (name s) +:+ " " +:+ f)
                (map (λ s0, "ALTER COLUMN " +:+ str_id d (name s) +:+ " " +:+ s0) fs))
      as [rest ->].
    eexists. by rewrite append_assoc.
Qed.

Lemma mutate_column_stmt_compares_four_witness :
  Mutator.mutate_column_stmt Generic.dialect col_name col_email = Ok None
  ∧ ∃ rest, Mutator.mutate_column_stmt Generic.dialect col_name col_name_not_null
            = Ok (Some ("ALTER COLUMN " +:+ rest)).
Proof.
  split.
  - apply (mutate_column_stmt_compares_four Generic.dialect col_name col_email).
    by repeat split.
  - apply (mutate_column_stmt_compares_four Generic.dialect col_name col_name_not_null).
    intros (_ & Hnull & _). discriminate Hnull.
Defined.

(** The Oracle override: the same four comparisons, one change each. *)
Lemma oracle_changes_by_attribute (d : Dialect) (default_expr : Column → string)
    (s t : Column) :
  OracleMutator.mutate_column_changes d default_expr s t
  = oracle_attribute_changes d default_expr s t.
Proof.
  unfold OracleMutator.mutate_column_changes, oracle_attribute_changes, changed.
  destruct (default t); repeat case_decide; simpl; try done;
    destruct (nullable t), (identity t); simpl; done.
Qed.

Lemma base_single_attribute (d : Dialect) (s t : Column) :
  let only (fragment : string) :=
    Mutator.mutate_column_fragments d s t = [fragment]
    ∧ Mutator.mutate_column_stmt d s t = Ok (Some (alter_column d s fragment)) in
  (¬ same_type s t → same_nullability s t → same_default s t → same_identity s t →
     only (type_fragment d t))
  ∧ (same_type s t → ¬ same_nullability s t → same_default s t → same_identity s t →
     only (nullability_fragment t))
  ∧ (same_type s t → same_nullability s t → ¬ same_default s t → same_identity s t →
     only (default_fragment t))
  ∧ (same_type s t → same_nullability s t → same_default s t → ¬ same_identity s t →
     only (identity_fragment t)).
Proof.
  intros only.
  assert (Hone : ∀ f, attribute_fragments d s t = [f] → only f).
  { intros f Hf. unfold only, Mutator.mutate_column_stmt.
    rewrite mutate_column_fragments_by_attribute, Hf. split; [done|].
    destruct (decide (s = t)) as [->|_]; [|done].
    exfalso. unfold attribute_fragments in Hf.
    by rewrite !changed_same in Hf. }
  unfold same_type, same_nullability, same_default, same_identity.
  repeat split; intros; apply Hone; unfold attribute_fragments;
    repeat (first [ rewrite changed_same by done
                  | rewrite changed_differ by done ]); done.
Qed.

Lemma oracle_single_attribute_single_change (d : Dialect)
    (default_expr : Column → string) (s t : Column) :
  let only (change : string) :=
    OracleMutator.mutate_column_changes d default_expr s t = [change]
    ∧ OracleMutator.mutate_column_stmt d default_expr s t
      = Ok (Some ("MODIFY " +:+ str_id d (name s) +:+ " " +:+ change)) in
  (¬ same_type s t → same_nullability s t → same_default s t → same_identity s t →
     only (str_data_type d (data_type t)))
  ∧ (same_type s t → ¬ same_nullability s t → same_default s t → same_identity s t →
     only (if nullable t then "NULL" else "NOT NULL"))
  ∧ (same_type s t → same_nullability s t → ¬ same_default s t → same_identity s t →
     only (match default t with
           | Some _ => "DEFAULT " +:+ default_expr t
           | None => "DEFAULT NULL"
           end))
  ∧ (same_type s t → same_nullability s t → same_default s t → ¬ same_identity s t →
     only (if identity t then "GENERATED BY DEFAULT AS IDENTITY"
           else "DROP IDENTITY")).
Proof.
  intros only.
  assert (Hone : ∀ c, oracle_attribute_changes d default_expr s t = [c] → only c).
  { intros c Hc. unfold only, OracleMutator.mutate_column_stmt.
    by rewrite oracle_changes_by_attribute, Hc. }
  unfold same_type, same_nullability, same_default, same_identity.
  repeat split; intros; apply Hone; unfold oracle_attribute_changes;
    repeat (first [ rewrite changed_same by done
                  | rewrite changed_differ by done ]); done.
Qed.

(** C7, as stated, fails for the Oracle override: for two columns that
    differ in the nullability only it returns one [MODIFY] clause with the
    change [NOT NULL], not an [ALTER COLUMN ... SET NOT NULL] fragment. *)
Lemma oracle_has_its_own_wording :
  same_type col_name col_name_not_null
  ∧ ¬ same_nullability col_name col_name_not_null
  ∧ same_default col_name col_name_not_null
  ∧ same_identity col_name col_name_not_null
  ∧ OracleMutator.mutate_column_stmt Generic.dialect
      (λ c, str_optional (default c)) col_name col_name_not_null
    = Ok (Some ("MODIFY " +:+ Generic.show_id (LocalId "name") +:+ " NOT NULL"))
  ∧ OracleMutator.mutate_column_stmt Generic.dialect
      (λ c, str_optional (default c)) col_name col_name_not_null
    ≠ Ok (Some (alter_column Generic.dialect col_name "SET NOT NULL")).
Proof.
  split; [done|]. split; [discriminate|]. split; [done|]. split; [done|].
  split; [vm_compute; reflexivity | vm_compute; discriminate].
Qed.

(** C7 (amended). When two columns differ in exactly one of data type,
    nullability, default and identity, the base [mutate_column_stmt]
    produces exactly one fragment, the one of that attribute: [SET DATA TYPE]
    for the type, [SET NOT NULL] or [DROP NOT NULL] for the nullability,
    [DROP DEFAULT] when the target has no default and [SET DEFAULT]
    otherwise, [DROP IDENTITY] or [ADD GENERATED BY DEFAULT AS IDENTITY] for
    the identity.  The Oracle override produces exactly one change, of that
    attribute, in a single [MODIFY] clause and in its own words: the data
    type itself for the type, [NOT NULL] or [NULL] for the nullability,
    [DEFAULT NULL] when the target has no default and [DEFAULT] with the
    default expression otherwise, [DROP IDENTITY] or [GENERATED BY DEFAULT AS
    IDENTITY] for the identity. *)
Theorem single_attribute_single_fragment (d : Dialect)
    (default_expr : Column → string) (s t : Column) :
  let only (fragment change : string) :=
    Mutator.mutate_column_fragments d s t = [fragment]
    ∧ Mutator.mutate_column_stmt d s t = Ok (Some (alter_column d s fragment))
    ∧ OracleMutator.mutate_column_changes d default_expr s t = [change]
    ∧ OracleMutator.mutate_column_stmt d default_expr s t
      = Ok (Some ("MODIFY " +:+ str_id d (name s) +:+ " " +:+ change)) in
  (¬ same_type s t → same_nullability s t → same_default s t → same_identity s t →
     only (type_fragment d t) (str_data_type d (data_type t)))
  ∧ (same_type s t → ¬ same_nullability s t → same_default s t → same_identity s t →
     only (nullability_fragment t) (if nullable t then "NULL" else "NOT NULL"))
  ∧ (same_type s t → same_nullability s t → ¬ same_default s t → same_identity s t →
     only (default_fragment t)
          (match default t with
           | Some _ => "DEFAULT " +:+ default_expr t
           | None => "DEFAULT NULL"
           end))
  ∧ (same_type s t → same_nullability s t → same_default s t → ¬ same_identity s t →
     only (identity_fragment t)
          (if identity t then "GENERATED BY DEFAULT AS IDENTITY"
           else "DROP IDENTITY")).
Proof.
  intros only.
  destruct (base_single_attribute d s t) as (Bt & Bn & Bd & Bi).
  destruct (oracle_single_attribute_single_change d default_expr s t)
    as (Ot & On & Od & Oi).
  split; [|split; [|split]]; intros H1 H2 H3 H4; unfold only.
  - destruct (Bt H1 H2 H3 H4) as [? ?]. destruct (Ot H1 H2 H3 H4) as [? ?]. auto.
  - destruct (Bn H1 H2 H3 H4) as [? ?]. destruct (On H1 H2 H3 H4) as [? ?]. auto.
  - destruct (Bd H1 H2 H3 H4) as [? ?]. destruct (Od H1 H2 H3 H4) as [? ?]. auto.
  - destruct (Bi H1 H2 H3 H4) as [? ?]. destruct (Oi H1 H2 H3 H4) as [? ?]. auto.
Qed.

Lemma single_attribute_single_fragment_witness :
  (Mutator.mutate_column_stmt Generic.dialect col_name col_name_varchar
   = Ok (Some (alter_column Generic.dialect col_name "SET DATA TYPE varchar(64)"))
   ∧ OracleMutator.mutate_column_stmt Generic.dialect
       (λ c, str_optional (default c)) col_name col_name_varchar
     = Ok (Some ("MODIFY " +:+ Generic.show_id (LocalId "name") +:+ " varchar(64)")))
  ∧ (Mutator.mutate_column_stmt Generic.dialect col_name col_name_not_null
     = Ok (Some (alter_column Generic.dialect col_name "SET NOT NULL"))
     ∧ OracleMutator.mutate_column_stmt Generic.dialect
         (λ c, str_optional (default c)) col_name col_name_not_null
       = Ok (Some ("MODIFY " +:+ Generic.show_id (LocalId "name") +:+ " NOT NULL")))
  ∧ (Mutator.mutate_column_stmt Generic.dialect col_name col_name_default
     = Ok (Some (alter_column Generic.dialect col_name "SET DEFAULT '?'"))
     ∧ OracleMutator.mutate_column_stmt Generic.dialect
         (λ c, str_optional (default c)) col_name col_name_default
       = Ok (Some ("MODIFY " +:+ Generic.show_id (LocalId "name") +:+ " DEFAULT '?'")))
  ∧ (Mutator.mutate_column_stmt Generic.dialect col_name_default col_name
     = Ok (Some (alter_column Generic.dialect col_name "DROP DEFAULT"))
     ∧ OracleMutator.mutate_column_stmt Generic.dialect
         (λ c, str_optional (default c)) col_name_default col_name
       = Ok (Some ("MODIFY " +:+ Generic.show_id (LocalId "name") +:+ " DEFAULT NULL")))
  ∧ (Mutator.mutate_column_stmt Generic.dialect col_name col_name_identity
     = Ok (Some (alter_column Generic.dialect col_name
                   "ADD GENERATED BY DEFAULT AS IDENTITY"))
     ∧ OracleMutator.mutate_column_stmt Generic.dialect
         (λ c, str_optional (default c)) col_name col_name_identity
       = Ok (Some ("MODIFY " +:+ Generic.show_id (LocalId "name")
                   +:+ " GENERATED BY DEFAULT AS IDENTITY"))).
Proof.
  pose proof (single_attribute_single_fragment Generic.dialect
                (λ c, str_optional (default c)) col_name col_name_varchar)
    as (Ht & _).
  pose proof (single_attribute_single_fragment Generic.dialect
                (λ c, str_optional (default c)) col_name col_name_not_null)
    as (_ & Hn & _).
  pose proof (single_attribute_single_fragment Generic.dialect
                (λ c, str_optional (default c)) col_name col_name_default)
    as (_ & _ & Hd & _).
  pose proof (single_attribute_single_fragment Generic.dialect
                (λ c, str_optional (default c)) col_name_default col_name)
    as (_ & _ & Hd' & _).
  pose proof (single_attribute_single_fragment Generic.dialect
                (λ c, str_optional (default c)) col_name col_name_identity)
    as (_ & _ & _ & Hi).
  split; [|split; [|split; [|split]]].
  - destruct Ht as (_ & Hb & _ & Ho); [by discriminate | done..|]. by split.
  - destruct Hn as (_ & Hb & _ & Ho); [done | by discriminate | done..|]. by split.
  - destruct Hd as (_ & Hb & _ & Ho); [done | done | by discriminate | done|].
    by split.
  - destruct Hd' as (_ & Hb & _ & Ho); [done | done | by discriminate | done|].
    by split.
  - destruct Hi as (_ & Hb & _ & Ho); [done | done | done | by discriminate|].
    by split.
Defined.

(** ** Column errors are attributed to the table *)

(** A comprehension stops at the first item that raises. *)
Lemma mapM_first_Raise {A B} (f : A → result B) (before after : list A)
    (x : A) (done : list B) (e : Exn) :
  mapM f before = Ok done → f x = Raise e →
  mapM f (before ++ x :: after) = Raise e.
Proof.
  revert done. induction before as [|y before IH]; intros done; simpl.
  - intros _ ->. done.
  - destruct (f y) as [b|e']; simpl; [|done].
    destruct (mapM f before) as [bs|e']; simpl; [|done].
    intros _ Hx. by rewrite (IH bs).
Qed.

(** C8. When rendering or diffing a column raises a [ColumnFormationError]
    inside [mutate_table_stmt], in the loop that creates or updates columns
    or in the loop that drops them, the caller gets a [TableFormationError]
    that carries the identifier of the target table and has the column error
    as its cause. *)
Theorem column_error_becomes_table_error (d : Dialect)
    (fn : Column → Column → result (option string))
    (source target : Table) (e : Exn) :
  name source = name target →
  is_ColumnFormationError e = true →
  (∀ before column after fragments,
     values (columns target) = before ++ column :: after →
     mapM (column_step d fn source) before = Ok fragments →
     column_step d fn source column = Raise e →
     Mutator.mutate_table_stmt d fn source target
     = Raise (TableFormationError
                "failed to create or update columns in table" (name target) e))
  ∧ (∀ per_column before column after fragments,
       mapM (column_step d fn source) (values (columns target)) = Ok per_column →
       removed_columns source target = before ++ column :: after →
       mapM (column_drop_stmt d) before = Ok fragments →
       column_drop_stmt d column = Raise e →
       Mutator.mutate_table_stmt d fn source target
       = Raise (TableFormationError
                  "failed to drop columns in table" (name target) e)).
Proof.
  intros Hn He. split.
  - intros before column after fragments Hcols Hbefore Hcolumn.
    unfold Mutator.mutate_table_stmt, Mutator.mutate_table_fragments.
    rewrite (check_identity_same d source target Hn). simpl.
    rewrite create_or_update_columns_steps, Hcols.
    rewrite (mapM_first_Raise _ _ _ _ _ _ Hbefore Hcolumn). simpl.
    by rewrite He.
  - intros per_column before column after fragments Hsteps Hrem Hbefore Hcolumn.
    unfold Mutator.mutate_table_stmt, Mutator.mutate_table_fragments.
    rewrite (check_identity_same d source target Hn). simpl.
    rewrite create_or_update_columns_steps, Hsteps. simpl.
    rewrite drop_columns_removed, Hrem.
    rewrite (mapM_first_Raise _ _ _ _ _ _ Hbefore Hcolumn). simpl.
    by rewrite He.
Qed.

Lemma column_error_becomes_table_error_witness :
  let unsupported :=
    ColumnFormationError "composite types are not supported" (LocalId "origin") in
  Mutator.mutate_table_stmt Generic.dialect_without_structs
    (Mutator.mutate_column_stmt Generic.dialect_without_structs)
    orders_plain orders_with_origin
  = Raise (TableFormationError "failed to create or update columns in table"
             (QualifiedId "app" "orders") unsupported)
  ∧ Mutator.mutate_table_stmt Generic.dialect_without_structs
      (Mutator.mutate_column_stmt Generic.dialect_without_structs)
      orders_with_origin orders_plain
    = Raise (TableFormationError "failed to drop columns in table"
               (QualifiedId "app" "orders") unsupported).
Proof.
  intros unsupported. split.
  - apply (proj1 (column_error_becomes_table_error
                    Generic.dialect_without_structs
                    (Mutator.mutate_column_stmt Generic.dialect_without_structs)
                    orders_plain orders_with_origin unsupported
                    eq_refl eq_refl)
             [col_id] col_origin [] [[]]);
      vm_compute; reflexivity.
  - apply (proj2 (column_error_becomes_table_error
                    Generic.dialect_without_structs
                    (Mutator.mutate_column_stmt Generic.dialect_without_structs)
                    orders_with_origin orders_plain unsupported
                    eq_refl eq_refl)
             [[]] [] col_origin [] []);
      vm_compute; reflexivity.
Defined.

(** ** Constraints of a table *)

(** C10. In [mutate_table_stmt] the constraint fragments follow the column
    fragments in the returned statement, and they are: one [DROP CONSTRAINT]
    per source constraint that needs [ALTER TABLE] when only the source has
    constraints; one [ADD CONSTRAINT] per such target constraint when only
    the target has constraints; none when both tables have constraints,
    however the two lists differ; none when neither has.  The statement is
    [alter_table_stmt] of all fragments, and [None] when there is none. *)
Theorem constraint_fragments_one_sided (d : Dialect)
    (fn : Column → Column → result (option string))
    (source target : Table) (per_column : list (list string))
    (drops : list string) :
  name source = name target →
  mapM (column_step d fn source) (values (columns target)) = Ok per_column →
  mapM (column_drop_stmt d) (removed_columns source target) = Ok drops →
  ∃ constraint_fragments,
    Mutator.mutate_table_stmt d fn source target
    = Ok (if truthy_list (concat per_column ++ drops ++ constraint_fragments)
          then Some (alter_table_stmt d source
                       (concat per_column ++ drops ++ constraint_fragments))
          else None)
    ∧ (constraints source ≠ [] → constraints target = [] →
       constraint_fragments = drop_constraint_fragments d source)
    ∧ (constraints source = [] → constraints target ≠ [] →
       constraint_fragments = add_constraint_fragments target)
    ∧ (constraints source ≠ [] → constraints target ≠ [] →
       constraint_fragments = [])
    ∧ (constraints source = [] → constraints target = [] →
       constraint_fragments = []).
Proof.
  intros Hn Hpc Hdr.
  exists (Mutator.mutate_constraints d source target []). split.
  - unfold Mutator.mutate_table_stmt, Mutator.mutate_table_fragments.
    rewrite (check_identity_same d source target Hn). simpl.
    rewrite create_or_update_columns_steps, Hpc. simpl.
    rewrite drop_columns_removed, Hdr. simpl.
    rewrite mutate_constraints_acc, <- app_assoc.
    by destruct (truthy_list _).
  - unfold Mutator.mutate_constraints, drop_constraint_fragments,
      add_constraint_fragments.
    destruct (constraints source) as [|cs css], (constraints target) as [|ct cts];
      cbn [truthy_list andb negb];
      rewrite ?fold_left_append_if, ?fold_left_skip; repeat split; done.
Qed.

Lemma constraint_fragments_one_sided_witness :
  BaseMutator.mutate_table_stmt Generic.dialect orders_constrained orders_plain
  = Ok (Some (alter_table_stmt Generic.dialect orders_constrained
                (drop_constraint_fragments Generic.dialect orders_constrained)))
  ∧ BaseMutator.mutate_table_stmt Generic.dialect orders_plain orders_constrained
    = Ok (Some (alter_table_stmt Generic.dialect orders_plain
                  (add_constraint_fragments orders_constrained)))
  ∧ BaseMutator.mutate_table_stmt Generic.dialect
      orders_constrained orders_other_constraint
    = Ok None.
Proof.
  split; [|split].
  - destruct (constraint_fragments_one_sided Generic.dialect
                (Mutator.mutate_column_stmt Generic.dialect)
                orders_constrained orders_plain [[]] [] eq_refl
                ltac:(vm_compute; reflexivity) ltac:(vm_compute; reflexivity))
      as (cf & Hrun & Hdrop & _).
    rewrite (Hdrop ltac:(discriminate) eq_refl) in Hrun. exact Hrun.
  - destruct (constraint_fragments_one_sided Generic.dialect
                (Mutator.mutate_column_stmt Generic.dialect)
                orders_plain orders_constrained [[]] [] eq_refl
                ltac:(vm_compute; reflexivity) ltac:(vm_compute; reflexivity))
      as (cf & Hrun & _ & Hadd & _).
    rewrite (Hadd eq_refl ltac:(discriminate)) in Hrun. exact Hrun.
  - destruct (constraint_fragments_one_sided Generic.dialect
                (Mutator.mutate_column_stmt Generic.dialect)
                orders_constrained orders_other_constraint [[]] [] eq_refl
                ltac:(vm_compute; reflexivity) ltac:(vm_compute; reflexivity))
      as (cf & Hrun & _ & _ & Hboth & _).
    rewrite (Hboth ltac:(discriminate) ltac:(discriminate)) in Hrun. exact Hrun.
Defined.

(** ** PostgreSQL string literals *)

Lemma search_class_elem (class : list ascii) (text : string) :
  PostgreSQL.search_class class text = true
  ↔ ∃ c, c ∈ class ∧ c ∈ chars text.
Proof.
  unfold chars. induction text as [|x text IH]; simpl.
  - split; [done|]. intros (c & _ & Hc). by apply elem_of_nil in Hc.
  - rewrite orb_true_iff, IH, bool_decide_eq_true. split.
    + intros [Hx | (c & Hc & Hin)].
      * exists x. split; [done | apply elem_of_cons; auto].
      * exists c. split; [done | apply elem_of_cons; auto].
    + intros (c & Hc & Hin). apply elem_of_cons in Hin as [->|Hin]; eauto.
Qed.

Lemma translate_escape_extended (text : string) :
  PostgreSQL.translate PostgreSQL._sql_quoted_str_table text
  = concat_map escape_extended text.
Proof.
  induction text as [|x text IH]; [done|].
  cbn [PostgreSQL.translate concat_map]. rewrite IH. f_equal.
  unfold PostgreSQL._sql_quoted_str_table, escape_extended.
  cbn [PostgreSQL.table_lookup].
  repeat case_decide; subst; try done; try congruence.
Qed.

Lemma replace_escape_plain (text : string) :
  PostgreSQL.replace APOSTROPHE "''" text = concat_map escape_plain text.
Proof.
  induction text as [|x text IH]; [done|].
  cbn [PostgreSQL.replace concat_map]. by rewrite IH.
Qed.

Lemma length_append (a b : string) :
  String.length (a +:+ b) = String.length a + String.length b.
Proof.
  induction a as [|x a IH]; [done|]. rewrite append_cons. simpl. by rewrite IH.
Qed.

Lemma escape_plain_length (text : string) :
  String.length text ≤ String.length (concat_map escape_plain text)
  ∧ (APOSTROPHE ∈ chars text →
     String.length text < String.length (concat_map escape_plain text)).
Proof.
  unfold chars. induction text as [|x text [IHle IHlt]]; simpl.
  - split; [lia|]. intros H. by apply elem_of_nil in H.
  - rewrite length_append. unfold escape_plain at 1 3.
    destruct (decide (x = APOSTROPHE)) as [->|Hx]; simpl.
    + split; [lia|]. intros _. lia.
    + split; [lia|]. intros H. apply elem_of_cons in H as [H|H]; [done|].
      specialize (IHlt H). lia.
Qed.

Lemma sql_quoted_string_extended (text : string) :
  (∃ c, c ∈ PostgreSQL.control_class ∧ c ∈ chars text) →
  PostgreSQL.sql_quoted_string text
  = "E'" +:+ concat_map escape_extended text +:+ "'".
Proof.
  intros H. unfold PostgreSQL.sql_quoted_string.
  rewrite (proj2 (search_class_elem _ _) H). by rewrite translate_escape_extended.
Qed.

Lemma sql_quoted_string_plain (text : string) :
  ¬ (∃ c, c ∈ PostgreSQL.control_class ∧ c ∈ chars text) →
  PostgreSQL.sql_quoted_string text
  = "'" +:+ concat_map escape_plain text +:+ "'".
Proof.
  intros H. unfold PostgreSQL.sql_quoted_string.
  destruct (PostgreSQL.search_class _ _) eqn:Hs.
  - exfalso. by apply H, search_class_elem.
  - by rewrite replace_escape_plain.
Qed.

(** C9, as stated, fails for the backslash: in a plain literal it is copied
    as it is. *)
Lemma backslash_is_not_escaped_in_plain_literal :
  PostgreSQL.sql_quoted_string "a\b" = "'a\b'" ∧ ¬ escapes BACKSLASH.
Proof.
  split; [vm_compute; reflexivity|].
  intros H. apply (H "a\b"); [by_compute | vm_compute; reflexivity].
Qed.

(** C9 (amended). The literal is extended, with the [E] prefix, exactly
    when the input has a backspace, form-feed, newline, carriage-return or
    tab; in an extended literal each of backslash, apostrophe and these five
    is replaced by a backslash escape and every other character is copied; in
    a plain literal the apostrophe is doubled and every other character, the
    backslash included, is copied.  So each of the seven characters except
    the backslash is escaped in every input it occurs in. *)
Theorem sql_quoted_string_escapes (text : string) :
  let has_control := ∃ c, c ∈ PostgreSQL.control_class ∧ c ∈ chars text in
  (has_control →
     PostgreSQL.sql_quoted_string text
     = "E'" +:+ concat_map escape_extended text +:+ "'")
  ∧ (¬ has_control →
     PostgreSQL.sql_quoted_string text
     = "'" +:+ concat_map escape_plain text +:+ "'")
  ∧ (∀ c, c ∈ escaped_characters →
       ∃ x, escape_extended c = String BACKSLASH (str1 x))
  ∧ (∀ c, c ∉ escaped_characters → escape_extended c = str1 c)
  ∧ escape_plain APOSTROPHE = String APOSTROPHE (str1 APOSTROPHE)
  ∧ (∀ c, c ≠ APOSTROPHE → escape_plain c = str1 c)
  ∧ (∀ c, c ∈ escaped_characters → c ≠ BACKSLASH → c ∈ chars text →
       PostgreSQL.sql_quoted_string text ≠ "'" +:+ text +:+ "'").
Proof.
  intros has_control.
  split; [apply sql_quoted_string_extended|].
  split; [apply sql_quoted_string_plain|].
  split.
  { intros c Hc. unfold escaped_characters in Hc.
    repeat (apply elem_of_cons in Hc as [->|Hc]; [vm_compute; eauto|]).
    by apply elem_of_nil in Hc. }
  split.
  { intros c Hc. unfold escaped_characters in Hc.
    rewrite !not_elem_of_cons in Hc.
    destruct Hc as (H1 & H2 & H3 & H4 & H5 & H6 & H7 & _).
    unfold escape_extended. by rewrite !decide_False by done. }
  split; [done|].
  split.
  { intros c Hc. unfold escape_plain. by rewrite decide_False. }
  intros c Hc Hb Hin.
  destruct (PostgreSQL.search_class PostgreSQL.control_class text) eqn:Hs.
  - unfold PostgreSQL.sql_quoted_string. rewrite Hs. discriminate.
  - assert (c = APOSTROPHE) as ->.
    { unfold escaped_characters in Hc.
      apply elem_of_cons in Hc as [->|Hc]; [done|].
      apply elem_of_cons in Hc as [->|Hc]; [done|].
      exfalso. apply not_true_iff_false in Hs. apply Hs, search_class_elem.
      exists c. by split. }
    unfold PostgreSQL.sql_quoted_string. rewrite Hs, replace_escape_plain.
    intros Heq. apply (f_equal String.length) in Heq.
    rewrite !length_append in Heq. simpl in Heq.
    pose proof (proj2 (escape_plain_length text) Hin). lia.
Qed.

Lemma sql_quoted_string_escapes_witness :
  PostgreSQL.sql_quoted_string (String TAB "a\b'c")
  = "E'" +:+ concat_map escape_extended (String TAB "a\b'c") +:+ "'"
  ∧ PostgreSQL.sql_quoted_string "a\b'c"
    = "'" +:+ concat_map escape_plain "a\b'c" +:+ "'"
  ∧ PostgreSQL.sql_quoted_string "a\b'c" ≠ "'" +:+ "a\b'c" +:+ "'".
Proof.
  split; [|split].
  - apply (sql_quoted_string_escapes (String TAB "a\b'c")).
    exists TAB. split; by_compute.
  - apply (sql_quoted_string_escapes "a\b'c").
    intros (c & Hc & Hin). revert Hin. unfold PostgreSQL.control_class in Hc.
    repeat (apply elem_of_cons in Hc as [->|Hc]; [by_compute|]).
    by apply elem_of_nil in Hc.
  - apply (proj2 (proj2 (proj2 (proj2 (proj2 (proj2
             (sql_quoted_string_escapes "a\b'c"))))))) with APOSTROPHE;
      [by_compute | discriminate | by_compute].
Defined.

(** * Further properties *)

Import MoreExamples.

(** ** The mutator: building from nothing, dropping everything *)

Lemma only_in_nil_r {T} (m : Mapping T) : only_in m [] = values m.
Proof.
  unfold only_in. f_equal. induction m as [|kv m IH]; [done|].
  rewrite filter_cons_True by apply not_elem_of_nil. by rewrite IH.
Qed.

Lemma mutate_diff_nil_l {T} (f : T → T → result (option string)) (m : Mapping T) :
  Mutator._mutate_diff f [] m = Ok [].
Proof. done. Qed.

Lemma mutate_diff_nil_r {T} (f : T → T → result (option string)) (m : Mapping T) :
  Mutator._mutate_diff f m [] = Ok [].
Proof.
  unfold Mutator._mutate_diff. apply foldM_noop. intros a k _.
  unfold contains. by rewrite bool_decide_eq_false_2 by apply not_elem_of_nil.
Qed.

Lemma create_diff_nil_target {T} (f : T → result string) (m : Mapping T) :
  Mutator._create_diff f m [] = Ok [].
Proof. done. Qed.

Lemma deferred_constraints_nil {T} (f : T → result (option string))
    (m : Mapping T) (acc : list string) :
  Mutator.deferred_constraints f [] m acc = Ok acc.
Proof. done. Qed.

Lemma namespace_statements_from_nothing (d : Dialect)
    (fn : Column → Column → result (option string))
    (source target : Namespace) :
  empty_namespace source → name source = name target →
  namespace_dicts_ok target →
  Mutator.mutate_namespace_statements d fn source target
  = (let* e := mapM (enum_create_stmt d) (values (enums target)) in
     let* s := mapM (struct_create_stmt d) (values (structs target)) in
     let* t := mapM (table_create_stmt d) (values (tables target)) in
     let* a := mapM (table_add_constraints_stmt d) (values (tables target)) in
     Ok (e ++ s ++ t ++ kept a)).
Proof.
  intros (He & Hs & Ht) Hn (Hde & Hds & Hdt).
  unfold Mutator.mutate_namespace_statements.
  rewrite (check_identity_same d source target Hn). simpl.
  rewrite He, Hs, Ht. rewrite !create_diff_only_in, !only_in_nil_r by done.
  destruct (mapM (enum_create_stmt d) _) as [e|?]; simpl; [|done].
  destruct (mapM (struct_create_stmt d) _) as [s|?]; simpl; [|done].
  destruct (mapM (table_create_stmt d) _) as [t|?]; simpl; [|done].
  rewrite deferred_constraints_only_in, only_in_nil_r by done.
  destruct (mapM (table_add_constraints_stmt d) _) as [a|?]; simpl; [|done].
  rewrite !app_nil_r. by rewrite <- !app_assoc.
Qed.

(** X1. Diffing an empty namespace against a target of the same name
    returns, joined by newlines, exactly the creates of the target's enums,
    structs and tables, in that order, then the add-constraints statements
    of its tables: no mutation, no drop; [None] when there is no statement,
    and the error of the first renderer that fails. *)
Theorem namespace_from_nothing (d : Dialect)
    (fn : Column → Column → result (option string))
    (source target : Namespace) :
  empty_namespace source → name source = name target →
  namespace_dicts_ok target →
  Mutator.mutate_namespace_stmt d fn source target
  = (let* e := mapM (enum_create_stmt d) (values (enums target)) in
     let* s := mapM (struct_create_stmt d) (values (structs target)) in
     let* t := mapM (table_create_stmt d) (values (tables target)) in
     let* a := mapM (table_add_constraints_stmt d) (values (tables target)) in
     Ok (if truthy_list (e ++ s ++ t ++ kept a)
         then Some (join NL (e ++ s ++ t ++ kept a))
         else None)).
Proof.
  intros He Hn Hd. unfold Mutator.mutate_namespace_stmt.
  rewrite (namespace_statements_from_nothing d fn source target He Hn Hd).
  destruct (mapM (enum_create_stmt d) _) as [e|?]; simpl; [|done].
  destruct (mapM (struct_create_stmt d) _) as [s|?]; simpl; [|done].
  destruct (mapM (table_create_stmt d) _) as [t|?]; simpl; [|done].
  by destruct (mapM (table_add_constraints_stmt d) _) as [a|?].
Qed.

Lemma namespace_from_nothing_witness :
  Mutator.mutate_namespace_stmt Generic.dialect
    (Mutator.mutate_column_stmt Generic.dialect) empty_app app_source
  = Ok (Some (join NL
         [ Generic.render_enum_create_stmt mood_ab;
           Generic.render_enum_create_stmt colour;
           Generic.render_struct_create_stmt point_xy;
           Generic.render_struct_create_stmt shape;
           Generic.render_table_create_stmt users_source;
           Generic.render_table_create_stmt orders_constrained;
           Generic.render_alter_table_stmt orders_constrained
             (add_constraint_fragments orders_constrained) ]))
  ∧ Mutator.mutate_namespace_stmt Generic.dialect
      (Mutator.mutate_column_stmt Generic.dialect) empty_app empty_app
    = Ok None.
Proof.
  split.
  - rewrite (namespace_from_nothing Generic.dialect
               (Mutator.mutate_column_stmt Generic.dialect) empty_app app_source);
      [vm_compute; reflexivity | by repeat split | done | ok_by_compute].
  - rewrite (namespace_from_nothing Generic.dialect
               (Mutator.mutate_column_stmt Generic.dialect) empty_app empty_app);
      [vm_compute; reflexivity | by repeat split | done | ok_by_compute].
Defined.

Lemma namespace_statements_to_nothing (d : Dialect)
    (fn : Column → Column → result (option string))
    (source target : Namespace) :
  empty_namespace target → name source = name target →
  namespace_dicts_ok source →
  Mutator.mutate_namespace_statements d fn source target
  = (let* t := mapM (table_drop_stmt d) (values (tables source)) in
     let* s := mapM (struct_drop_stmt d) (values (structs source)) in
     let* e := mapM (enum_drop_stmt d) (values (enums source)) in
     Ok (t ++ s ++ e)).
Proof.
  intros (He & Hs & Ht) Hn (Hde & Hds & Hdt).
  unfold Mutator.mutate_namespace_statements.
  rewrite (check_identity_same d source target Hn). simpl.
  rewrite He, Hs, Ht. rewrite !create_diff_nil_target. simpl.
  rewrite !mutate_diff_nil_r. simpl.
  rewrite !drop_diff_only_in, !only_in_nil_r by done.
  destruct (mapM (table_drop_stmt d) _) as [t|?]; simpl; [|done].
  destruct (mapM (struct_drop_stmt d) _) as [s|?]; simpl; [|done].
  destruct (mapM (enum_drop_stmt d) _) as [e|?]; simpl; [|done].
  by rewrite <- !app_assoc.
Qed.

(** X2. Diffing a namespace against an empty target of the same name
    returns, joined by newlines, exactly the drops of its tables, then
    structs, then enums: the reverse of the create order, and nothing else;
    [None] when the namespace has no children. *)
Theorem namespace_to_nothing (d : Dialect)
    (fn : Column → Column → result (option string))
    (source target : Namespace) :
  empty_namespace target → name source = name target →
  namespace_dicts_ok source →
  Mutator.mutate_namespace_stmt d fn source target
  = (let* t := mapM (table_drop_stmt d) (values (tables source)) in
     let* s := mapM (struct_drop_stmt d) (values (structs source)) in
     let* e := mapM (enum_drop_stmt d) (values (enums source)) in
     Ok (if truthy_list (t ++ s ++ e)
         then Some (join NL (t ++ s ++ e))
         else None)).
Proof.
  intros He Hn Hd. unfold Mutator.mutate_namespace_stmt.
  rewrite (namespace_statements_to_nothing d fn source target He Hn Hd).
  destruct (mapM (table_drop_stmt d) _) as [t|?]; simpl; [|done].
  destruct (mapM (struct_drop_stmt d) _) as [s|?]; simpl; [|done].
  by destruct (mapM (enum_drop_stmt d) _) as [e|?].
Qed.

Lemma namespace_to_nothing_witness :
  Mutator.mutate_namespace_stmt Generic.dialect
    (Mutator.mutate_column_stmt Generic.dialect) app_source empty_app
  = Ok (Some (join NL
         [ "DROP TABLE " +:+ Generic.show_id (QualifiedId "app" "users") +:+ ";";
           "DROP TABLE " +:+ Generic.show_id (QualifiedId "app" "orders") +:+ ";";
           "DROP TYPE " +:+ Generic.show_id (LocalId "point") +:+ ";";
           "DROP TYPE " +:+ Generic.show_id (LocalId "shape") +:+ ";";
           "DROP TYPE " +:+ Generic.show_id (LocalId "mood") +:+ ";";
           "DROP TYPE " +:+ Generic.show_id (LocalId "colour") +:+ ";" ]))
  ∧ Mutator.mutate_namespace_stmt Generic.dialect
      (Mutator.mutate_column_stmt Generic.dialect) empty_app empty_app
    = Ok None.
Proof.
  split.
  - rewrite (namespace_to_nothing Generic.dialect
               (Mutator.mutate_column_stmt Generic.dialect) app_source empty_app);
      [vm_compute; reflexivity | by repeat split | done | ok_by_compute].
  - rewrite (namespace_to_nothing Generic.dialect
               (Mutator.mutate_column_stmt Generic.dialect) empty_app empty_app);
      [vm_compute; reflexivity | by repeat split | done | ok_by_compute].
Defined.

Lemma catalog_statements_from_and_to_nothing (d : Dialect)
    (fn : Column → Column → result (option string)) (c : Catalog) :
  dict_ok (namespaces c) →
  Mutator.mutate_catalog_statements d fn (mkCatalog []) c
  = (let* n := mapM (namespace_create_stmt d) (values (namespaces c)) in
     let* a := mapM (namespace_add_constraints_stmt d) (values (namespaces c)) in
     Ok (n ++ kept a))
  ∧ Mutator.mutate_catalog_statements d fn c (mkCatalog [])
    = (let* a := mapM (namespace_drop_constraints_stmt d) (values (namespaces c)) in
       let* n := mapM (namespace_drop_stmt d) (values (namespaces c)) in
       Ok (kept a ++ n)).
Proof.
  intros Hok. unfold Mutator.mutate_catalog_statements. simpl namespaces. split.
  - rewrite create_diff_only_in, only_in_nil_r by done.
    destruct (mapM (namespace_create_stmt d) _) as [n|?]; simpl; [|done].
    rewrite deferred_constraints_only_in, only_in_nil_r by done.
    destruct (mapM (namespace_add_constraints_stmt d) _) as [a|?]; simpl; [|done].
    by rewrite !app_nil_r.
  - rewrite create_diff_nil_target. simpl.
    rewrite mutate_diff_nil_r. simpl.
    rewrite deferred_constraints_only_in, only_in_nil_r by done.
    destruct (mapM (namespace_drop_constraints_stmt d) _) as [a|?]; simpl; [|done].
    rewrite drop_diff_only_in, only_in_nil_r by done.
    by destruct (mapM (namespace_drop_stmt d) _) as [n|?].
Qed.

(** X3. For a catalog: diffing from an empty catalog returns, joined by
    newlines, the creates of the target namespaces then their
    add-constraints statements; diffing to an empty catalog returns the
    drop-constraints statements of the source namespaces then their drops;
    [None] in both cases when there is no statement. *)
Theorem catalog_from_and_to_nothing (d : Dialect)
    (fn : Column → Column → result (option string)) (c : Catalog) :
  dict_ok (namespaces c) →
  Mutator.mutate_catalog_stmt d fn (mkCatalog []) c
  = (let* n := mapM (namespace_create_stmt d) (values (namespaces c)) in
     let* a := mapM (namespace_add_constraints_stmt d) (values (namespaces c)) in
     Ok (if truthy_list (n ++ kept a)
         then Some (join NL (n ++ kept a))
         else None))
  ∧ Mutator.mutate_catalog_stmt d fn c (mkCatalog [])
    = (let* a := mapM (namespace_drop_constraints_stmt d) (values (namespaces c)) in
       let* n := mapM (namespace_drop_stmt d) (values (namespaces c)) in
       Ok (if truthy_list (kept a ++ n)
           then Some (join NL (kept a ++ n))
           else None)).
Proof.
  intros Hok. unfold Mutator.mutate_catalog_stmt.
  destruct (catalog_statements_from_and_to_nothing d fn c Hok) as [-> ->].
  split.
  - destruct (mapM (namespace_create_stmt d) _) as [n|?]; simpl; [|done].
    by destruct (mapM (namespace_add_constraints_stmt d) _) as [a|?].
  - destruct (mapM (namespace_drop_constraints_stmt d) _) as [a|?]; simpl; [|done].
    by destruct (mapM (namespace_drop_stmt d) _) as [n|?].
Qed.

Lemma catalog_from_and_to_nothing_witness :
  Mutator.mutate_catalog_stmt Generic.dialect
    (Mutator.mutate_column_stmt Generic.dialect) (mkCatalog []) catalog_target
  = Ok (Some (join NL
         [ Generic.render_namespace_create_stmt audit;
           Generic.render_namespace_create_stmt app_target;
           Generic.render_alter_table_stmt orders_constrained
             (add_constraint_fragments orders_constrained) ]))
  ∧ Mutator.mutate_catalog_stmt Generic.dialect
      (Mutator.mutate_column_stmt Generic.dialect) catalog_source (mkCatalog [])
    = Ok (Some (join NL
           [ Generic.render_alter_table_stmt orders_constrained
               (drop_constraint_fragments Generic.dialect orders_constrained);
             Generic.render_alter_table_stmt orders_constrained
               (drop_constraint_fragments Generic.dialect orders_constrained);
             "DROP SCHEMA " +:+ Generic.show_id (LocalId "app") +:+ " CASCADE;";
             "DROP SCHEMA " +:+ Generic.show_id (LocalId "legacy") +:+ " CASCADE;" ]))
  ∧ Mutator.mutate_catalog_stmt Generic.dialect
      (Mutator.mutate_column_stmt Generic.dialect) (mkCatalog []) (mkCatalog [])
    = Ok None.
Proof.
  split; [|split].
  - rewrite (proj1 (catalog_from_and_to_nothing Generic.dialect
                      (Mutator.mutate_column_stmt Generic.dialect) catalog_target
                      ltac:(ok_by_compute))).
    vm_compute. reflexivity.
  - rewrite (proj2 (catalog_from_and_to_nothing Generic.dialect
                      (Mutator.mutate_column_stmt Generic.dialect) catalog_source
                      ltac:(ok_by_compute))).
    vm_compute. reflexivity.
  - rewrite (proj1 (catalog_from_and_to_nothing Generic.dialect
                      (Mutator.mutate_column_stmt Generic.dialect) (mkCatalog [])
                      ltac:(ok_by_compute))).
    vm_compute. reflexivity.
Defined.

(** ** The mutator: errors *)

(** X4. An exception raised for a column that is not a
    [ColumnFormationError] (a plain [FormationError], say) leaves
    [mutate_table_stmt] as it is: it is not wrapped in a
    [TableFormationError] and the table is not named. *)
Theorem other_error_is_not_wrapped (d : Dialect)
    (fn : Column → Column → result (option string))
    (source target : Table) (e : Exn) :
  name source = name target →
  is_ColumnFormationError e = false →
  (∀ before column after fragments,
     values (columns target) = before ++ column :: after →
     mapM (column_step d fn source) before = Ok fragments →
     column_step d fn source column = Raise e →
     Mutator.mutate_table_stmt d fn source target = Raise e)
  ∧ (∀ per_column before column after fragments,
       mapM (column_step d fn source) (values (columns target)) = Ok per_column →
       removed_columns source target = before ++ column :: after →
       mapM (column_drop_stmt d) before = Ok fragments →
       column_drop_stmt d column = Raise e →
       Mutator.mutate_table_stmt d fn source target = Raise e).
Proof.
  intros Hn He. split.
  - intros before column after fragments Hcols Hbefore Hcolumn.
    unfold Mutator.mutate_table_stmt, Mutator.mutate_table_fragments.
    rewrite (check_identity_same d source target Hn). simpl.
    rewrite create_or_update_columns_steps, Hcols.
    rewrite (mapM_first_Raise _ _ _ _ _ _ Hbefore Hcolumn). simpl.
    by rewrite He.
  - intros per_column before column after fragments Hsteps Hrem Hbefore Hcolumn.
    unfold Mutator.mutate_table_stmt, Mutator.mutate_table_fragments.
    rewrite (check_identity_same d source target Hn). simpl.
    rewrite create_or_update_columns_steps, Hsteps. simpl.
    rewrite drop_columns_removed, Hrem.
    rewrite (mapM_first_Raise _ _ _ _ _ _ Hbefore Hcolumn). simpl.
    by rewrite He.
Qed.

Lemma other_error_is_not_wrapped_witness :
  Mutator.mutate_table_stmt dialect_with_limit
    (Mutator.mutate_column_stmt dialect_with_limit)
    users_plain users_with_described
  = Raise long_comment
  ∧ Mutator.mutate_table_stmt dialect_with_limit
      (Mutator.mutate_column_stmt dialect_with_limit)
      users_with_described users_plain
    = Raise long_comment.
Proof.
  split.
  - apply (proj1 (other_error_is_not_wrapped dialect_with_limit
                    (Mutator.mutate_column_stmt dialect_with_limit)
                    users_plain users_with_described long_comment
                    eq_refl eq_refl)
             [col_id] col_name_described [] [[]]);
      vm_compute; reflexivity.
  - apply (proj2 (other_error_is_not_wrapped dialect_with_limit
                    (Mutator.mutate_column_stmt dialect_with_limit)
                    users_with_described users_plain long_comment
                    eq_refl eq_refl)
             [[]] [] col_name_described [] []);
      vm_compute; reflexivity.
Defined.

Lemma mapM_Ok_elem {A B} (f : A → result B) (l : list A) (r : list B) (x : A) :
  mapM f l = Ok r → x ∈ l → ∃ y, f x = Ok y.
Proof.
  revert r. induction l as [|a l IH]; intros r Hr Hx.
  - by apply elem_of_nil in Hx.
  - simpl in Hr. destruct (f a) as [b|?] eqn:Ha; simpl in Hr; [|done].
    destruct (mapM f l) as [bs|?]; simpl in Hr; [|done].
    apply elem_of_cons in Hx as [->|Hx]; eauto.
Qed.

Lemma mapM_Raise_elem {A B} (f : A → result B) (l : list A) (e : Exn) :
  mapM f l = Raise e → ∃ x, x ∈ l ∧ f x = Raise e.
Proof.
  induction l as [|a l IH]; simpl; [done|].
  destruct (f a) as [b|e'] eqn:Ha; simpl.
  - destruct (mapM f l) as [bs|e']; simpl; [done|].
    intros [= ->]. destruct IH as (x & Hx & Hfx); [done|].
    exists x. split; [apply elem_of_cons; auto | done].
  - intros [= ->]. exists a. split; [apply elem_of_cons; auto | done].
Qed.

Lemma get_Some_elem {T} (m : Mapping T) (k : string) (v : T) :
  get m k = Some v → (k, v) ∈ m.
Proof.
  induction m as [|[k' v'] m IH]; simpl; [done|].
  destruct (decide (k' = k)) as [->|_].
  - intros [= ->]. apply elem_of_cons; auto.
  - intros H. apply elem_of_cons. right. by apply IH.
Qed.

Lemma in_both_elem {T} (source target : Mapping T) (k : string) (s t : T) :
  (k, s) ∈ source → get target k = Some t → (s, t) ∈ in_both source target.
Proof.
  intros Hs Ht. unfold in_both. apply list_elem_of_omap.
  exists (k, s). split; [done|]. simpl. by rewrite Ht.
Qed.

Lemma in_both_inv {T} (source target : Mapping T) (p : T * T) :
  p ∈ in_both source target →
  ∃ k, (k, p.1) ∈ source ∧ get target k = Some p.2.
Proof.
  unfold in_both. intros ([k s] & Hin & Hp)%list_elem_of_omap. simpl in Hp.
  destruct (get target k) as [t|] eqn:Ht; [|done].
  injection Hp as <-. exists k. by split.
Qed.

Lemma mutate_enum_stmt_Ok_grows (d : Dialect) (s t : EnumType)
    (r : option string) :
  Mutator.mutate_enum_stmt d s t = Ok r →
  name s = name t ∧ ∀ v, v ∈ enum_values s → v ∈ enum_values t.
Proof.
  unfold Mutator.mutate_enum_stmt, Mutator.check_identity.
  destruct (decide (name s ≠ name t)) as [|Hn]; simpl; [done|].
  destruct (filter (λ value, value ∉ enum_values t) (enum_values s))
    as [|x xs] eqn:Hf; simpl; [|done].
  intros _. split; [by apply dec_stable|].
  intros v Hv. apply dec_stable. intros Hnot.
  by apply (proj1 (filter_nil_iff (λ x, x ∉ enum_values t) _) Hf v).
Qed.

(** X5. Whenever [mutate_namespace_stmt] returns, every enum type present
    in both namespaces kept all its values: a diff that would drop an enum
    value returns no statement at all for the namespace. *)
Theorem namespace_result_keeps_enum_values (d : Dialect)
    (fn : Column → Column → result (option string))
    (source target : Namespace) (r : option string) :
  namespace_dicts_ok source → namespace_dicts_ok target →
  Mutator.mutate_namespace_stmt d fn source target = Ok r →
  ∀ k s t,
    get (enums source) k = Some s → get (enums target) k = Some t →
    ∀ v, v ∈ enum_values s → v ∈ enum_values t.
Proof.
  intros Hs Ht H k s t Hks Hkt.
  unfold Mutator.mutate_namespace_stmt in H. split_run H.
  apply mutate_namespace_statements_Ok in Hr; [|done..].
  destruct Hr as (_ & _ & _ & _ & me & _ & _ & _ & _ & _
                  & _ & _ & _ & _ & Hme & _).
  assert (Hin : (s, t) ∈ in_both (enums source) (enums target))
    by (eapply in_both_elem; [by apply get_Some_elem | done]).
  destruct (mapM_Ok_elem _ _ _ _ Hme Hin) as [o Ho]. simpl in Ho.
  by apply mutate_enum_stmt_Ok_grows in Ho as [_ ?].
Qed.

Lemma namespace_result_keeps_enum_values_witness :
  "b" ∈ enum_values mood_abc.
Proof.
  destruct (BaseMutator.mutate_namespace_stmt Generic.dialect app_source app_target)
    as [r|e] eqn:Hrun; [|vm_compute in Hrun; discriminate Hrun].
  apply (namespace_result_keeps_enum_values Generic.dialect
           (Mutator.mutate_column_stmt Generic.dialect)
           app_source app_target r ltac:(ok_by_compute) ltac:(ok_by_compute)
           Hrun "mood" mood_ab mood_abc eq_refl eq_refl "b").
  by_compute.
Defined.

(** X6. An error of [_mutate_diff] is the error of diffing one matched
    pair, unchanged: the helper adds no context and raises nothing of its
    own. *)
Theorem mutate_diff_error_origin {T}
    (mutate_fn : T → T → result (option string))
    (source target : Mapping T) (e : Exn) :
  dict_ok source →
  Mutator._mutate_diff mutate_fn source target = Raise e →
  ∃ k s t,
    get source k = Some s ∧ get target k = Some t ∧ mutate_fn s t = Raise e.
Proof.
  intros Hok H. rewrite mutate_diff_in_both in H by done.
  destruct (mapM _ (in_both source target)) as [r|e'] eqn:Hm; simpl in H; [done|].
  injection H as ->.
  apply mapM_Raise_elem in Hm as ([s t] & Hin & Hst).
  apply in_both_inv in Hin as (k & Hks & Hkt). simpl in *.
  exists k, s, t. split; [by apply get_elem_of | by split].
Qed.

Lemma mutate_diff_error_origin_witness :
  ∃ k s t,
    get [("mood", mood_abc)] k = Some s ∧ get [("mood", mood_ab)] k = Some t
    ∧ ∃ msg, Mutator.mutate_enum_stmt Generic.dialect s t
             = Raise (FormationError msg).
Proof.
  destruct (Mutator._mutate_diff (Mutator.mutate_enum_stmt Generic.dialect)
              [("mood", mood_abc)] [("mood", mood_ab)]) as [r|e] eqn:Hrun;
    [vm_compute in Hrun; discriminate Hrun|].
  assert (Hok : dict_ok [("mood", mood_abc)]) by ok_by_compute.
  destruct (mutate_diff_error_origin
              (Mutator.mutate_enum_stmt Generic.dialect)
              [("mood", mood_abc)] [("mood", mood_ab)] e Hok Hrun)
    as (k & s & t & Hs & Ht & He).
  exists k, s, t. split; [done|]. split; [done|].
  assert (He' := He). vm_compute in Hrun. injection Hrun as <-. eauto.
Defined.

(** ** The mutator: enums and columns *)

(** X7. Two enum types of the same name with the same set of values, in
    whatever order and with whatever repetitions, give no statement: a
    reordering of enum values is not a change. *)
Theorem enum_reordering_is_no_change (d : Dialect) (source target : EnumType) :
  name source = name target →
  (∀ v, v ∈ enum_values source ↔ v ∈ enum_values target) →
  Mutator.mutate_enum_stmt d source target = Ok None.
Proof.
  intros Hn Hsame. unfold Mutator.mutate_enum_stmt.
  rewrite (check_identity_same d source target Hn). simpl.
  rewrite (filter_none (λ v, v ∉ enum_values target))
    by (intros v Hv Hnot; by apply Hnot, Hsame).
  simpl.
  by rewrite (filter_none (λ v, v ∉ enum_values source))
    by (intros v Hv Hnot; by apply Hnot, Hsame).
Qed.

Lemma enum_reordering_is_no_change_witness :
  Mutator.mutate_enum_stmt Generic.dialect mood_ab mood_ba = Ok None.
Proof.
  apply enum_reordering_is_no_change; [done|].
  intros v. unfold mood_ab, mood_ba. simpl.
  rewrite !elem_of_cons, !elem_of_nil. tauto.
Defined.

Lemma oracle_changes_nil (d : Dialect) (default_expr : Column → string)
    (s t : Column) :
  oracle_attribute_changes d default_expr s t = []
  ↔ same_type s t ∧ same_nullability s t ∧ same_default s t ∧ same_identity s t.
Proof.
  unfold oracle_attribute_changes, changed, same_type, same_nullability,
    same_default, same_identity.
  repeat case_decide; simpl; split; try done; try tauto;
    intros; repeat split; by apply dec_stable.
Qed.

Lemma base_column_None_iff (d : Dialect) (s t : Column) :
  Mutator.mutate_column_stmt d s t = Ok None
  ↔ same_type s t ∧ same_nullability s t ∧ same_default s t ∧ same_identity s t.
Proof.
  unfold Mutator.mutate_column_stmt.
  rewrite mutate_column_fragments_by_attribute.
  rewrite <- (attribute_fragments_nil d s t).
  destruct (decide (s = t)) as [->|_].
  - split; [|done]. intros _. unfold attribute_fragments.
    by rewrite !changed_same.
  - destruct (attribute_fragments d s t); simpl; split; intros; done.
Qed.

Lemma oracle_column_None_iff (d : Dialect) (default_expr : Column → string)
    (s t : Column) :
  OracleMutator.mutate_column_stmt d default_expr s t = Ok None
  ↔ same_type s t ∧ same_nullability s t ∧ same_default s t ∧ same_identity s t.
Proof.
  unfold OracleMutator.mutate_column_stmt.
  rewrite oracle_changes_by_attribute, <- (oracle_changes_nil d default_expr s t).
  destruct (oracle_attribute_changes d default_expr s t); simpl; split;
    intros; done.
Qed.

(** X8. The base mutator and the Oracle override agree on when a column
    needs a statement: one returns [None] exactly when the other does. *)
Theorem oracle_agrees_with_base (d : Dialect) (default_expr : Column → string)
    (s t : Column) :
  Mutator.mutate_column_stmt d s t = Ok None
  ↔ OracleMutator.mutate_column_stmt d default_expr s t = Ok None.
Proof. by rewrite base_column_None_iff, oracle_column_None_iff. Qed.

Lemma oracle_agrees_with_base_witness :
  OracleMutator.mutate_column_stmt Generic.dialect
    (λ c, str_optional (default c)) col_name col_email
  = Ok None.
Proof.
  apply (proj1 (oracle_agrees_with_base Generic.dialect
                  (λ c, str_optional (default c)) col_name col_email)).
  vm_compute. reflexivity.
Defined.

Lemma length_changed {A} `{EqDecision A} (a b : A) (f g : string) :
  length (changed a b f) = length (changed a b g).
Proof. unfold changed. by case_decide. Qed.

(** X9. [mutate_column_stmt] builds one [ALTER COLUMN] clause for each of
    data type, nullability, default and identity that differs, four at most,
    and every clause names the source column. *)
Theorem one_clause_per_differing_attribute (d : Dialect) (s t : Column) :
  length (Mutator.mutate_column_fragments d s t) = differing_attributes s t
  ∧ differing_attributes s t ≤ 4
  ∧ (s ≠ t →
     Mutator.mutate_column_stmt d s t
     = Ok (if truthy_list (Mutator.mutate_column_fragments d s t)
           then Some (join ("," +:+ NL)
                        (map (alter_column d s)
                             (Mutator.mutate_column_fragments d s t)))
           else None)).
Proof.
  split; [|split].
  - rewrite mutate_column_fragments_by_attribute.
    unfold attribute_fragments, differing_attributes.
    rewrite !length_app.
    rewrite (length_changed _ _ (type_fragment d t) EmptyString).
    rewrite (length_changed _ _ (nullability_fragment t) EmptyString).
    rewrite (length_changed _ _ (default_fragment t) EmptyString).
    by rewrite (length_changed _ _ (identity_fragment t) EmptyString).
  - unfold differing_attributes, changed. repeat case_decide; simpl; lia.
  - intros Hne. unfold Mutator.mutate_column_stmt.
    rewrite decide_False by done.
    by destruct (truthy_list _).
Qed.

Lemma one_clause_per_differing_attribute_witness :
  Mutator.mutate_column_stmt Generic.dialect col_id col_email
  = Ok (Some (join ("," +:+ NL)
                [ alter_column Generic.dialect col_id "SET DATA TYPE text";
                  alter_column Generic.dialect col_id "DROP NOT NULL" ])).
Proof.
  rewrite (proj2 (proj2 (one_clause_per_differing_attribute
                           Generic.dialect col_id col_email)))
    by discriminate.
  vm_compute. reflexivity.
Defined.

(** ** PostgreSQL literals read back *)

Lemma read_extended_step (c : ascii) (rest : string) :
  read_extended (escape_extended c +:+ rest)
  = match read_extended rest with
    | Some r => Some (String c r)
    | None => None
    end.
Proof.
  unfold escape_extended.
  repeat case_decide; subst; try (vm_compute; reflexivity).
  unfold str1. rewrite append_cons. change (EmptyString +:+ rest) with rest.
  cbn [read_extended]. by rewrite !decide_False by done.
Qed.

Lemma read_plain_step (c : ascii) (rest : string) :
  read_plain (escape_plain c +:+ rest)
  = match read_plain rest with
    | Some r => Some (String c r)
    | None => None
    end.
Proof.
  unfold escape_plain.
  case_decide; subst; [vm_compute; reflexivity|].
  unfold str1. rewrite append_cons. change (EmptyString +:+ rest) with rest.
  cbn [read_plain]. by rewrite decide_False by done.
Qed.

Lemma read_extended_escaped (text : string) :
  read_extended (concat_map escape_extended text +:+ "'") = Some text.
Proof.
  induction text as [|c text IH]; [done|].
  cbn [concat_map]. by rewrite append_assoc, read_extended_step, IH.
Qed.

Lemma read_plain_escaped (text : string) :
  read_plain (concat_map escape_plain text +:+ "'") = Some text.
Proof.
  induction text as [|c text IH]; [done|].
  cbn [concat_map]. by rewrite append_assoc, read_plain_step, IH.
Qed.

Lemma unquote_roundtrip (text : string) :
  unquote (PostgreSQL.sql_quoted_string text) = Some text.
Proof.
  unfold PostgreSQL.sql_quoted_string.
  destruct (PostgreSQL.search_class PostgreSQL.control_class text).
  - rewrite translate_escape_extended.
    change ("E'" +:+ ?x) with (String "E" (String "'" x)).
    cbn [unquote]. rewrite decide_False by done.
    rewrite !decide_True by done. apply read_extended_escaped.
  - rewrite replace_escape_plain.
    change ("'" +:+ ?x) with (String "'" x).
    cbn [unquote]. rewrite decide_True by done. apply read_plain_escaped.
Qed.

(** X10. Round trip: reading the literal [sql_quoted_string] writes, as an
    extended literal after [E'] (backslash escapes) or as a plain one
    (doubled apostrophes), gives the input back; the body holds no
    apostrophe that would close the literal early. *)
Theorem unquote_sql_quoted_string (text : string) :
  unquote (PostgreSQL.sql_quoted_string text) = Some text.
Proof. apply unquote_roundtrip. Qed.

(** X11. [sql_quoted_string] is injective: two different strings never
    render as the same literal. *)
Theorem sql_quoted_string_injective (a b : string) :
  PostgreSQL.sql_quoted_string a = PostgreSQL.sql_quoted_string b → a = b.
Proof.
  intros H. apply (f_equal unquote) in H.
  rewrite (unquote_roundtrip a), (unquote_roundtrip b) in H. by injection H.
Qed.

Lemma sql_quoted_string_injective_witness :
  two_lines = "first line" +:+ NL +:+ "second line".
Proof. apply sql_quoted_string_injective. vm_compute. reflexivity. Defined.

Lemma chars_append (a b : string) : chars (a +:+ b) = chars a ++ chars b.
Proof.
  unfold chars. induction a as [|x a IH]; [done|].
  rewrite append_cons. simpl. by rewrite IH.
Qed.

Lemma control_not_in_escape_extended (c x : ascii) :
  c ∈ PostgreSQL.control_class → c ∉ chars (escape_extended x).
Proof.
  intros Hc. unfold escape_extended.
  repeat case_decide; subst;
    try (unfold PostgreSQL.control_class in Hc;
         repeat (apply elem_of_cons in Hc as [->|Hc]; [by_compute|]);
         by apply elem_of_nil in Hc).
  unfold chars, str1. simpl. rewrite not_elem_of_cons.
  split; [|apply not_elem_of_nil]. intros ->.
  unfold PostgreSQL.control_class in Hc.
  repeat (apply elem_of_cons in Hc as [?|Hc]; [done|]).
  by apply elem_of_nil in Hc.
Qed.

Lemma control_not_in_escape_plain (c x : ascii) :
  c ∈ PostgreSQL.control_class → c ≠ x → c ∉ chars (escape_plain x).
Proof.
  intros Hc Hx. unfold escape_plain. case_decide; subst.
  - unfold PostgreSQL.control_class in Hc.
    repeat (apply elem_of_cons in Hc as [->|Hc]; [by_compute|]).
    by apply elem_of_nil in Hc.
  - unfold chars, str1. simpl. rewrite not_elem_of_cons.
    split; [done | apply not_elem_of_nil].
Qed.

(** X12. The literal never holds a raw backspace, form-feed, newline,
    carriage-return or tab, whatever the input: a multi-line text is written
    on one line. *)
Theorem sql_quoted_string_has_no_control_character (text : string) (c : ascii) :
  c ∈ PostgreSQL.control_class →
  c ∉ chars (PostgreSQL.sql_quoted_string text).
Proof.
  intros Hc. unfold PostgreSQL.sql_quoted_string.
  assert (Hquote : c ∉ chars "'").
  { unfold PostgreSQL.control_class in Hc.
    repeat (apply elem_of_cons in Hc as [->|Hc]; [by_compute|]).
    by apply elem_of_nil in Hc. }
  assert (HE : c ∉ chars "E'").
  { unfold PostgreSQL.control_class in Hc.
    repeat (apply elem_of_cons in Hc as [->|Hc]; [by_compute|]).
    by apply elem_of_nil in Hc. }
  destruct (PostgreSQL.search_class PostgreSQL.control_class text) eqn:Hs.
  - rewrite translate_escape_extended, !chars_append, !elem_of_app.
    intros [H|[H|H]]; [done | | done]. clear Hs. revert H.
    induction text as [|x text IH]; [apply not_elem_of_nil|].
    cbn [concat_map]. rewrite chars_append, elem_of_app.
    intros [H|H]; [by apply (control_not_in_escape_extended c x) | by apply IH].
  - rewrite replace_escape_plain, !chars_append, !elem_of_app.
    intros [H|[H|H]]; [done | | done].
    assert (Hno : c ∉ chars text).
    { intros Hin. apply not_true_iff_false in Hs. apply Hs.
      apply search_class_elem. by exists c. }
    clear Hs. revert Hno H.
    induction text as [|x text IH]; [intros _; apply not_elem_of_nil|].
    unfold chars at 1. simpl. fold (chars text). rewrite not_elem_of_cons.
    intros [Hx Hrest]. cbn [concat_map]. rewrite chars_append, elem_of_app.
    intros [H|H]; [by apply (control_not_in_escape_plain c x) | by apply IH].
Qed.

Lemma sql_quoted_string_has_no_control_character_witness :
  NEWLINE ∉ chars (PostgreSQL.sql_quoted_string two_lines).
Proof.
  apply sql_quoted_string_has_no_control_character. by_compute.
Defined.

(** ** PostgreSQL tables and struct types with comments *)

Lemma fold_left_append_omap {A} (f : A → option string) (l : list A)
    (acc : list string) :
  fold_left (λ statements x,
               match f x with
               | Some s => statements ++ [s]
               | None => statements
               end) l acc
  = acc ++ omap f l.
Proof.
  revert acc. induction l as [|x l IH]; intros acc; simpl.
  - by rewrite app_nil_r.
  - rewrite IH. destruct (f x); simpl; [|done]. by rewrite <- app_assoc.
Qed.

Lemma fold_left_append_described {A} (g : A → option string)
    (h : A → string → string) (l : list A) (acc : list string) :
  fold_left (λ statements x,
               match g x with
               | Some text => statements ++ [h x text]
               | None => statements
               end) l acc
  = acc ++ omap (λ x, match g x with
                      | Some text => Some (h x text)
                      | None => None
                      end) l.
Proof.
  revert acc. induction l as [|x l IH]; intros acc; simpl.
  - by rewrite app_nil_r.
  - rewrite IH. destruct (g x); simpl; [|done]. by rewrite <- app_assoc.
Qed.

Lemma omap_described_nil {A} (g : A → option string) (h : A → string → string)
    (l : list A) :
  Forall (λ x, g x = None) l →
  omap (λ x, match g x with
             | Some text => Some (h x text)
             | None => None
             end) l = [].
Proof. induction 1 as [|x l Hx _ IH]; [done|]. simpl. by rewrite Hx. Qed.

(** X13. [PostgreSQLTable.create_stmt] fails exactly as the base
    [create_stmt] does, and otherwise is the base statement followed, one
    per line, by the comment on the table when it has a description and the
    comments on the described columns in column order; without any
    description it is the base statement unchanged. *)
Theorem postgresql_table_create_stmt (str_id : Identifier → string)
    (base : Table → result string) (t : Table) :
  PostgreSQLObjects.table_create_stmt str_id base t
  = (let* b := base t in Ok (join NL (b :: table_comments str_id t)))
  ∧ (table_description t = None →
     Forall (λ c, description c = None) (values (columns t)) →
     PostgreSQLObjects.table_create_stmt str_id base t = base t).
Proof.
  assert (Heq : PostgreSQLObjects.table_create_stmt str_id base t
                = (let* b := base t in Ok (join NL (b :: table_comments str_id t)))).
  { unfold PostgreSQLObjects.table_create_stmt, table_comments.
    destruct (base t) as [b|e]; simpl; [|done].
    rewrite (fold_left_append_described description
               (λ c text, "COMMENT ON COLUMN " +:+ str_id (name t) +:+ "."
                          +:+ str_id (name c) +:+ " IS "
                          +:+ PostgreSQL.sql_quoted_string text +:+ ";")).
    by destruct (table_description t). }
  split; [done|].
  intros Hd Hcols. rewrite Heq. unfold table_comments. rewrite Hd.
  rewrite (omap_described_nil description _ _ Hcols).
  by destruct (base t).
Qed.

Lemma postgresql_table_create_stmt_witness :
  PostgreSQLObjects.table_create_stmt Generic.show_id
    (λ t, Ok (Generic.render_table_create_stmt t)) users_source
  = Ok (Generic.render_table_create_stmt users_source).
Proof.
  apply (postgresql_table_create_stmt Generic.show_id
           (λ t, Ok (Generic.render_table_create_stmt t)) users_source);
    [done | by repeat constructor].
Defined.

(** X14. [PostgreSQLStructType.create_stmt] likewise: the base statement,
    then the comment on the type when it has a description, then the
    comments on the described members in member order; unchanged without
    descriptions; failing exactly as the base does. *)
Theorem postgresql_struct_create_stmt (str_id : Identifier → string)
    (base : StructType → result string) (s : StructType) :
  PostgreSQLObjects.struct_create_stmt str_id base s
  = (let* b := base s in Ok (join NL (b :: struct_comments str_id s)))
  ∧ (struct_description s = None →
     Forall (λ m, member_description m = None) (values (struct_members s)) →
     PostgreSQLObjects.struct_create_stmt str_id base s = base s).
Proof.
  assert (Heq : PostgreSQLObjects.struct_create_stmt str_id base s
                = (let* b := base s in Ok (join NL (b :: struct_comments str_id s)))).
  { unfold PostgreSQLObjects.struct_create_stmt, struct_comments.
    destruct (base s) as [b|e]; simpl; [|done].
    rewrite (fold_left_append_described member_description
               (λ m text, "COMMENT ON COLUMN " +:+ str_id (name s) +:+ "."
                          +:+ str_id (name m) +:+ " IS "
                          +:+ PostgreSQL.sql_quoted_string text +:+ ";")).
    by destruct (struct_description s). }
  split; [done|].
  intros Hd Hm. rewrite Heq. unfold struct_comments. rewrite Hd.
  rewrite (omap_described_nil member_description _ _ Hm).
  by destruct (base s).
Qed.

Lemma postgresql_struct_create_stmt_witness :
  PostgreSQLObjects.struct_create_stmt Generic.show_id
    (λ s, Ok (Generic.render_struct_create_stmt s)) point_xy
  = Ok (Generic.render_struct_create_stmt point_xy).
Proof.
  apply (postgresql_struct_create_stmt Generic.show_id
           (λ s, Ok (Generic.render_struct_create_stmt s)) point_xy);
    [done | by repeat constructor].
Defined.

(** ** MySQL descriptions and comments *)

Lemma str_contains_index (c : ascii) (s : string) :
  str_contains c s = true → ∃ i, str_index c s = Some i.
Proof.
  induction s as [|x s IH]; simpl; [done|].
  destruct (decide (x = c)); [eauto|].
  intros H. destruct (IH H) as [i ->]. eauto.
Qed.

Lemma line_of_no_newline (text : string) :
  str_contains NEWLINE text = false → line_of text = text.
Proof.
  induction text as [|x text IH]; simpl; [done|].
  destruct (decide (x = NEWLINE)); [done|]. intros H. by rewrite IH.
Qed.

Lemma line_of_take (text : string) (i : nat) :
  str_index NEWLINE text = Some i → str_take i text = line_of text.
Proof.
  revert i. induction text as [|x text IH]; intros i; simpl; [done|].
  destruct (decide (x = NEWLINE)).
  - by intros [= <-].
  - destruct (str_index NEWLINE text) as [j|]; [|done].
    intros [= <-]. simpl. by rewrite (IH j).
Qed.

(** The guard [in] makes [index] safe: no [ValueError] escapes. *)
Lemma first_line_line_of (text : string) :
  MySQL.first_line text = Return (line_of text).
Proof.
  unfold MySQL.first_line.
  destruct (str_contains NEWLINE text) eqn:Hc; simpl.
  - destruct (str_contains_index _ _ Hc) as [i Hi]. rewrite Hi.
    by rewrite (line_of_take text i).
  - by rewrite line_of_no_newline.
Qed.

Lemma line_of_prefix (text : string) :
  (NEWLINE ∉ chars (line_of text))
  ∧ ∃ rest, text = line_of text +:+ rest
            ∧ (rest = EmptyString ∨ ∃ r, rest = String NEWLINE r).
Proof.
  unfold chars. induction text as [|x text (Hno & rest & Htext & Hrest)]; simpl.
  - split; [apply not_elem_of_nil|]. exists EmptyString. auto.
  - destruct (decide (x = NEWLINE)) as [->|Hx]; simpl.
    + split; [apply not_elem_of_nil|]. exists (String NEWLINE text).
      split; [done|]. right. eauto.
    + split; [rewrite not_elem_of_cons; split; [congruence | done]|].
      exists rest. rewrite append_cons. split; [congruence | done].
Qed.

Lemma None_or_first_line (t : Table) :
  MySQL.short_description t = Return (line_of <$> table_description t)
  ∧ ∀ text, table_description t = Some text →
      (NEWLINE ∉ chars (line_of text))
      ∧ ∃ rest, text = line_of text +:+ rest
                ∧ (rest = EmptyString ∨ ∃ r, rest = String NEWLINE r).
Proof.
  split.
  - unfold MySQL.short_description.
    destruct (table_description t) as [text|]; [|done].
    by rewrite first_line_line_of.
  - intros text _. apply line_of_prefix.
Qed.

(** X15. [MySQLTable.short_description] never raises: it is [None] for a
    table without description and otherwise the first line of the
    description, that is, the description cut before its first newline (the
    whole description when it has none). *)
Theorem short_description_is_first_line (t : Table) :
  MySQL.short_description t = Return (line_of <$> table_description t)
  ∧ ∀ text, table_description t = Some text →
      (NEWLINE ∉ chars (line_of text))
      ∧ ∃ rest, text = line_of text +:+ rest
                ∧ (rest = EmptyString ∨ ∃ r, rest = String NEWLINE r).
Proof. apply None_or_first_line. Qed.

Lemma short_description_is_first_line_witness :
  MySQL.short_description described_users = Return (Some "first line").
Proof.
  rewrite (proj1 (short_description_is_first_line described_users)).
  vm_compute. reflexivity.
Defined.

Lemma py_len_le_length (s : string) : py_len s ≤ String.length s.
Proof.
  induction s as [|c s IH]; simpl; [done|].
  destruct (continuation_byte c); lia.
Qed.

Lemma comment_bound (quote : option string → string)
    (str_id : Identifier → string) (c : Column) (text : string) :
  description c = Some text →
  (1024 < py_len (line_of text) →
     MySQL.comment quote str_id c
     = Throw (Formation (FormationError
                ("comment for column " +:+ str_id (name c)
                 +:+ " too long, expected: maximum 1024; got: "
                 +:+ str_int (Z.of_nat (py_len (line_of text)))))))
  ∧ (py_len (line_of text) ≤ 1024 →
     MySQL.comment quote str_id c = Return (Some (quote (Some (line_of text))))).
Proof.
  intros Hd. unfold MySQL.comment. rewrite Hd, first_line_line_of. simpl.
  split; intros Hlen.
  - by rewrite decide_True by done.
  - by rewrite decide_False by lia.
Qed.

(** X16. [MySQLColumn.comment] raises a [FormationError] exactly when the
    first line of the description has more than 1024 code points, and the
    message gives that number of code points; otherwise it is the quoted
    first line.  Only the first line counts: a description of any length
    with a short first line is accepted.  The limit is on code points, not
    on bytes: a first line of 400 euro signs, 1200 bytes in UTF-8, is
    accepted. *)
Theorem comment_limit (quote : option string → string)
    (str_id : Identifier → string) (c : Column) (text : string) :
  description c = Some text →
  (1024 < py_len (line_of text) →
     MySQL.comment quote str_id c
     = Throw (Formation (FormationError
                ("comment for column " +:+ str_id (name c)
                 +:+ " too long, expected: maximum 1024; got: "
                 +:+ str_int (Z.of_nat (py_len (line_of text)))))))
  ∧ (py_len (line_of text) ≤ 1024 →
     MySQL.comment quote str_id c = Return (Some (quote (Some (line_of text))))).
Proof. apply comment_bound. Qed.

Lemma comment_limit_witness :
  MySQL.comment in_apostrophes Generic.show_id col_long_comment
  = Throw (Formation (FormationError
             ("comment for column " +:+ Generic.show_id (LocalId "note")
              +:+ " too long, expected: maximum 1024; got: 1025")))
  ∧ MySQL.comment in_apostrophes Generic.show_id col_long_second_line
    = Return (Some "'short'")
  ∧ (1024 < String.length (euros 400)
     ∧ MySQL.comment in_apostrophes Generic.show_id col_euro_comment
       = Return (Some ("'" +:+ euros 400 +:+ "'")))
  ∧ MySQL.comment in_apostrophes Generic.show_id col_long_euro_comment
    = Throw (Formation (FormationError
               ("comment for column " +:+ Generic.show_id (LocalId "price")
                +:+ " too long, expected: maximum 1024; got: 1025"))).
Proof.
  split; [|split; [|split; [split|]]].
  - rewrite (proj1 (comment_limit in_apostrophes Generic.show_id col_long_comment
                      _ eq_refl)).
    + vm_compute. reflexivity.
    + vm_compute. lia.
  - rewrite (proj2 (comment_limit in_apostrophes Generic.show_id col_long_second_line
                      _ eq_refl)).
    + vm_compute. reflexivity.
    + vm_compute. lia.
  - vm_compute. lia.
  - rewrite (proj2 (comment_limit in_apostrophes Generic.show_id col_euro_comment
                      _ eq_refl)).
    + vm_compute. reflexivity.
    + vm_compute. lia.
  - rewrite (proj1 (comment_limit in_apostrophes Generic.show_id
                      col_long_euro_comment _ eq_refl)).
    + vm_compute. reflexivity.
    + vm_compute. lia.
Defined.

(** X17. [MySQLColumn.data_spec] fails exactly when the column has a
    description whose first line has more than 1024 code points, and then
    with a [FormationError]; when it returns, the text starts with the data
    type. *)
Theorem data_spec_fails_on_long_comment (quote : option string → string)
    (str_id : Identifier → string) (str_data_type : SqlDataType → string)
    (c : Column) :
  ((∃ text, description c = Some text ∧ 1024 < py_len (line_of text))
   ↔ ∃ e, MySQL.data_spec quote str_id str_data_type c = Throw e)
  ∧ (∀ e, MySQL.data_spec quote str_id str_data_type c = Throw e →
       ∃ msg, e = Formation (FormationError msg))
  ∧ (∀ r, MySQL.data_spec quote str_id str_data_type c = Return r →
       ∃ rest, r = str_data_type (data_type c) +:+ rest).
Proof.
  unfold MySQL.data_spec. split; [|split].
  - destruct (description c) as [text|] eqn:Hd.
    + destruct (comment_bound quote str_id c text Hd) as [Hlong Hshort].
      destruct (decide (1024 < py_len (line_of text))) as [Hlen|Hlen].
      * rewrite (Hlong Hlen). simpl. split; eauto.
      * rewrite Hshort by lia. simpl. split.
        -- intros (text' & [= <-] & ?). done.
        -- intros [e He]. done.
    + simpl. split.
      * intros (text & ? & _). done.
      * intros [e He]. done.
  - intros e. destruct (description c) as [text|] eqn:Hd.
    + destruct (comment_bound quote str_id c text Hd) as [Hlong Hshort].
      destruct (decide (1024 < py_len (line_of text))) as [Hlen|Hlen].
      * rewrite (Hlong Hlen). simpl. intros [= <-]. eauto.
      * rewrite Hshort by lia. simpl. done.
    + simpl. done.
  - intros r. destruct (description c) as [text|] eqn:Hd.
    + destruct (MySQL.comment quote str_id c) as [o|e]; simpl; [|done].
      intros [= <-]. eauto.
    + simpl. intros [= <-]. eauto.
Qed.

Lemma data_spec_fails_on_long_comment_witness :
  (∃ e, MySQL.data_spec in_apostrophes Generic.show_id (λ _, "text")
          col_long_comment = Throw e)
  ∧ (∃ e, MySQL.data_spec in_apostrophes Generic.show_id (λ _, "text")
            col_long_euro_comment = Throw e)
  ∧ ¬ (∃ e, MySQL.data_spec in_apostrophes Generic.show_id (λ _, "text")
              col_euro_comment = Throw e)
  ∧ (∃ rest, MySQL.data_spec in_apostrophes Generic.show_id (λ _, "text") col_noted
             = Return ("text" +:+ rest)).
Proof.
  split; [|split; [|split]].
  - apply (proj1 (proj1 (data_spec_fails_on_long_comment in_apostrophes
                           Generic.show_id (λ _, "text") col_long_comment))).
    eexists. split; [reflexivity|]. vm_compute. lia.
  - apply (proj1 (proj1 (data_spec_fails_on_long_comment in_apostrophes
                           Generic.show_id (λ _, "text") col_long_euro_comment))).
    eexists. split; [reflexivity|]. vm_compute. lia.
  - intros H.
    apply (proj2 (proj1 (data_spec_fails_on_long_comment in_apostrophes
                           Generic.show_id (λ _, "text") col_euro_comment))) in H.
    destruct H as (text & [= <-] & Hlen). vm_compute in Hlen. lia.
  - destruct (MySQL.data_spec in_apostrophes Generic.show_id (λ _, "text") col_noted)
      as [r|e] eqn:Hrun.
    + destruct (proj2 (proj2 (data_spec_fails_on_long_comment in_apostrophes
                                Generic.show_id (λ _, "text") col_noted)) r Hrun)
        as [rest ->].
      by exists rest.
    + vm_compute in Hrun. discriminate.
Defined.

(** X18. [MySQLTable.create_stmt] fails only when rendering a column
    fails.  Its [COMMENT] clause holds the first line of the table
    description and is present exactly when that line is not empty: a table
    whose description is missing, empty or starts with a newline gets no
    comment. *)
Theorem mysql_create_stmt_comment (quote : option string → string)
    (str_id : Identifier → string) (str_column : Column → py string)
    (pk_id pk : Table → string) (t : Table) :
  MySQL.create_stmt quote str_id str_column pk_id pk t
  = (let+ cols := pmapM str_column (values (columns t)) in
     Return ("CREATE TABLE " +:+ str_id (name t) +:+ " (" +:+ NL
             +:+ join ("," +:+ NL)
                   (cols ++ ["CONSTRAINT " +:+ pk_id t +:+ " PRIMARY KEY ("
                             +:+ pk t +:+ ")"])
             +:+ NL +:+ ")" +:+ mysql_table_comment quote t +:+ ";"))
  ∧ (mysql_table_comment quote t = EmptyString
     ↔ line_of <$> table_description t = None
       ∨ line_of <$> table_description t = Some EmptyString).
Proof.
  split.
  - unfold MySQL.create_stmt, mysql_table_comment.
    rewrite !(proj1 (None_or_first_line t)).
    destruct (pmapM str_column _) as [cols|e]; simpl; [|done].
    destruct (table_description t) as [text|]; simpl; [|done].
    by destruct (line_of text).
  - unfold mysql_table_comment.
    destruct (table_description t) as [text|]; simpl.
    + destruct (line_of text); simpl.
      * split; auto.
      * split; [done|]. intros [?|?]; done.
    + split; auto.
Qed.

Lemma mysql_create_stmt_comment_witness :
  mysql_table_comment in_apostrophes described_users
  = NL +:+ "COMMENT = 'first line'"
  ∧ mysql_table_comment in_apostrophes users_source = EmptyString.
Proof.
  split; [vm_compute; reflexivity|].
  apply (proj2 (mysql_create_stmt_comment in_apostrophes Generic.show_id
                  (λ _, Return EmptyString) (λ _, EmptyString)
                  (λ _, EmptyString) users_source)).
  by left.
Defined.

(** ** SQL Server connection string and column order *)

(** X19. The connection string of [MSSQLConnection.open] is the [DRIVER]
    entry, then [SERVER], [UID] and [PWD] when they have a value, then
    [TrustServerCertificate=yes], joined by semicolons.  With a port the
    [SERVER] entry is always there and reads [host,port], the host printed
    as [None] when it is missing; without a port it is the host, and is left
    out when there is no host either.  The [database] parameter is not
    used. *)
Theorem conn_string_entries (params : Parameters) :
  let entry (key : string) (value : option string) : list string :=
    match value with
    | Some v => [key +:+ "=" +:+ v]
    | None => []
    end in
  let server : list string :=
    match port params, host params with
    | Some p, Some h => ["SERVER=" +:+ h +:+ "," +:+ str_int p]
    | Some p, None => ["SERVER=None," +:+ str_int p]
    | None, Some h => ["SERVER=" +:+ h]
    | None, None => []
    end in
  MSSQL.conn_string params
  = join ";" (["DRIVER={ODBC Driver 18 for SQL Server}"] ++ server
              ++ entry "UID" (username params) ++ entry "PWD" (password params)
              ++ ["TrustServerCertificate=yes"])
  ∧ ∀ other,
      MSSQL.conn_string
        (mkParameters (host params) (port params) (username params)
                      (password params) other)
      = MSSQL.conn_string params.
Proof.
  split; [|done].
  unfold MSSQL.conn_string, MSSQL.open_params.
  destruct (port params), (host params), (username params), (password params);
    reflexivity.
Qed.

(** X20. [order] in [_insert_rows] and [_upsert_rows] is [None] exactly
    when no field names are given or the tuple is empty; otherwise it holds
    the non-empty names in their order, so a tuple of empty names gives an
    empty order, not [None]. *)
Theorem order_keeps_named_fields (field_names : option (list string)) :
  (MSSQL.order field_names = None
   ↔ field_names = None ∨ field_names = Some [])
  ∧ ∀ names r,
      field_names = Some names → MSSQL.order field_names = Some r →
      r = List.filter truthy_str names
      ∧ (∀ n, n ∈ r ↔ n ∈ names ∧ n ≠ EmptyString).
Proof.
  split.
  - unfold MSSQL.order. destruct field_names as [[|n names]|]; simpl.
    + split; auto.
    + split; [done|]. intros [?|?]; done.
    + split; auto.
  - intros names r -> Hr. unfold MSSQL.order in Hr.
    destruct (truthy_list names); [|done].
    injection Hr as <-. split; [done|].
    intros n. rewrite !list_elem_of_In, filter_In.
    destruct n; simpl; split; intros [? ?]; split; done.
Qed.

Lemma order_keeps_named_fields_witness :
  MSSQL.order (Some [EmptyString; "id"; EmptyString; "name"]) = Some ["id"; "name"]
  ∧ MSSQL.order (Some [EmptyString]) = Some [].
Proof.
  split.
  - destruct (MSSQL.order (Some [EmptyString; "id"; EmptyString; "name"]))
      as [r|] eqn:Hr; [|vm_compute in Hr; discriminate Hr].
    destruct (proj2 (order_keeps_named_fields _) _ r eq_refl Hr) as [-> _].
    reflexivity.
  - destruct (MSSQL.order (Some [EmptyString])) as [r|] eqn:Hr;
      [|vm_compute in Hr; discriminate Hr].
    destruct (proj2 (order_keeps_named_fields _) _ r eq_refl Hr) as [-> _].
    reflexivity.
Defined.
